(** * sqlittle: header validation, dirty resolution, sqlite_master and scans

    A shallow embedding of [database.go], [pager_windows.go] and [low.go]
    of the sqlittle SQLite reader, with the properties of the header
    parser, the pager, the dirty-flag protocol, the [sqlite_master] reader
    and the scan entry points. *)

From Stdlib Require Import ZArith List String Bool Lia.
From Stdlib.Strings Require Import Byte.
From stdpp Require Import base option list strings gmap.

Import ListNotations.
Local Open Scope Z_scope.

(** ** Errors

    The package-level sentinel errors of [database.go], the errors created
    in place with [errors.New], and the errors of the Go libraries the code
    forwards unchanged. *)

Inductive error : Type :=
| ErrInvalidMagic
| ErrInvalidPageSize
| ErrReservedSpace
| ErrCorrupted
| ErrInvalidDef
| ErrRecursion
| ErrFileTruncated
| ErrIncompatible
| ErrEncoding
| ErrWAL
| ErrHotJournal
| ErrNoSuchTable
| ErrNoSuchIndex
| errors_New (msg : string)          (* errors.New("...") at the call site *)
| io_EOF                             (* io.EOF *)
| io_ErrUnexpectedEOF                (* io.ErrUnexpectedEOF *)
| mmap_invalid_offset (off : Z)      (* "mmap: invalid ReadAt offset %d" *)
| os_error (msg : string).           (* any other error of the OS layer *)

#[global] Instance error_eq_dec : EqDecision error.
Proof. solve_decision. Defined.

(** A call that returns either [(v, nil)] or [(nil, err)]. *)
Inductive result (A : Type) : Type :=
| Ok (a : A)
| Err (e : error).
Arguments Ok {A} a.
Arguments Err {A} e.

(** ** Bytes and fixed-width integers *)

Definition u8 (b : list byte) (i : nat) : Z :=
  Z.of_N (Byte.to_N (nth i b x00)).

(** [binary.BigEndian.Uint16] and [Uint32] at offset [i]. *)
Definition be16 (b : list byte) (i : nat) : Z :=
  Z.lor (u8 b (i + 1)) (Z.shiftl (u8 b i) 8).

Definition be32 (b : list byte) (i : nat) : Z :=
  Z.lor (Z.lor (Z.lor (u8 b (i + 3)) (Z.shiftl (u8 b (i + 2)) 8))
               (Z.shiftl (u8 b (i + 1)) 16))
        (Z.shiftl (u8 b i) 24).

Definition slice (b : list byte) (from len : nat) : list byte :=
  firstn len (skipn from b).

Fixpoint bytes_eqb (x y : list byte) : bool :=
  match x, y with
  | [], [] => true
  | a :: x', c :: y' => Byte.eqb a c && bytes_eqb x' y'
  | _, _ => false
  end.

(** [bits.OnesCount]: the number of one bits of an unsigned integer. *)
Fixpoint popcount (p : positive) : Z :=
  match p with
  | xH => 1
  | xO q => popcount q
  | xI q => 1 + popcount q
  end.

Definition OnesCount (n : Z) : Z :=
  match n with
  | Zpos p => popcount p
  | _ => 0
  end.

(** ** The file header *)

Definition headerSize : nat := 100.

(** ["SQLite format 3\x00"] *)
Definition headerMagic : list byte :=
  [x53; x51; x4c; x69; x74; x65; x20; x66; x6f; x72; x6d; x61; x74; x20; x33; x00].

Definition CachePages : nat := 100.

Record header : Type := mkHeader {
  PageSize : Z;
  ChangeCounter : Z;
  SchemaCookie : Z
}.

#[global] Instance header_eq_dec : EqDecision header.
Proof. solve_decision. Defined.

(** The zero value [header{}]. *)
Definition header0 : header := mkHeader 0 0 0.

(** The anonymous struct [hs] that [parseHeader] reads the 100 bytes into;
    the blank fields are skipped. *)
Record rawHeader : Type := mkRaw {
  hs_Magic : list byte;                 (* offset 0, 16 bytes *)
  hs_PageSize : Z;                      (* offset 16, uint16 *)
  hs_ReadVersion : Z;                   (* offset 19 *)
  hs_ReservedSpace : Z;                 (* offset 20 *)
  hs_MaxFraction : Z;                   (* offset 21 *)
  hs_MinFraction : Z;                   (* offset 22 *)
  hs_LeafFraction : Z;                  (* offset 23 *)
  hs_ChangeCounter : Z;                 (* offset 24, uint32 *)
  hs_SchemaCookie : Z;                  (* offset 40, uint32 *)
  hs_SchemaFormat : Z;                  (* offset 44, uint32 *)
  hs_TextEncoding : Z;                  (* offset 56, uint32 *)
  hs_ReservedForExpansion : list byte   (* offset 72, 20 bytes *)
}.

(** [binary.Read(bytes.NewBuffer(b[:]), binary.BigEndian, &hs)]: the struct
    is 100 bytes wide, so the read fails only on a shorter buffer. *)
Definition binary_Read (b : list byte) : rawHeader * option error :=
  let hs := mkRaw (slice b 0 16) (be16 b 16) (u8 b 19) (u8 b 20)
                  (u8 b 21) (u8 b 22) (u8 b 23) (be32 b 24) (be32 b 40)
                  (be32 b 44) (be32 b 56) (slice b 72 20) in
  if (length b <? headerSize)%nat then (hs, Some io_ErrUnexpectedEOF)
  else (hs, None).

Definition isPower (n : Z) : bool := OnesCount n =? 1.

(** The page size after the substitution of the raw value 1. *)
Definition page_size_of (raw : Z) : Z :=
  if raw =? 1 then Z.shiftl 1 16 else raw.

Definition parseHeader (b : list byte) : header * option error :=
  match binary_Read b with
  | (_, Some err) => (header0, Some err)
  | (hs, None) =>
    let h := header0 in
    if negb (bytes_eqb (hs_Magic hs) headerMagic) then (h, Some ErrInvalidMagic)
    else
      let s := hs_PageSize hs in
      let s := if s =? 1 then Z.shiftl 1 16 else s in
      if (s <? 512) || (s >? Z.shiftl 1 16) || negb (isPower s)
      then (header0, Some ErrInvalidPageSize)
      else
        let h := mkHeader s (ChangeCounter h) (SchemaCookie h) in
        if hs_ReadVersion hs =? 1 then
          if negb (hs_ReservedSpace hs =? 0) then (h, Some ErrReservedSpace)
          else if negb (hs_MaxFraction hs =? 64)
                  || negb (hs_MinFraction hs =? 32)
                  || negb (hs_LeafFraction hs =? 32)
          then (h, Some ErrIncompatible)
          else
            let h := mkHeader (PageSize h) (hs_ChangeCounter hs) (SchemaCookie h) in
            let h := mkHeader (PageSize h) (ChangeCounter h) (hs_SchemaCookie hs) in
            if (hs_SchemaFormat hs =? 2) || (hs_SchemaFormat hs =? 3)
               || (hs_SchemaFormat hs =? 4)
            then
              if hs_TextEncoding hs =? 1 then
                if existsb (fun v => negb (Byte.eqb v x00))
                           (hs_ReservedForExpansion hs)
                then (h, Some ErrIncompatible)
                else (h, None)
              else if (hs_TextEncoding hs =? 2) || (hs_TextEncoding hs =? 3)
              then (h, Some ErrEncoding)
              else (h, Some ErrIncompatible)
            else (h, Some ErrIncompatible)
        else if hs_ReadVersion hs =? 2 then (h, Some ErrWAL)
        else (h, Some ErrIncompatible)
  end.

(** *** The eight checks as the specification lists them

    Each check looks at the decoded fields only and answers with the error
    it raises, if any; [first_failure] runs a list of checks in order. *)

Definition pow2_in_range (s : Z) : bool :=
  existsb (fun k => s =? 2 ^ k) [9; 10; 11; 12; 13; 14; 15; 16].

Definition check_magic (hs : rawHeader) : option error :=
  if bytes_eqb (hs_Magic hs) headerMagic then None else Some ErrInvalidMagic.

Definition check_page_size (hs : rawHeader) : option error :=
  if hs_PageSize hs =? 1 then None
  else if pow2_in_range (hs_PageSize hs) then None
  else Some ErrInvalidPageSize.

Definition check_read_version (hs : rawHeader) : option error :=
  if hs_ReadVersion hs =? 1 then None
  else if hs_ReadVersion hs =? 2 then Some ErrWAL
  else Some ErrIncompatible.

Definition check_reserved_space (hs : rawHeader) : option error :=
  if hs_ReservedSpace hs =? 0 then None else Some ErrReservedSpace.

Definition check_fractions (hs : rawHeader) : option error :=
  if (hs_MaxFraction hs =? 64) && (hs_MinFraction hs =? 32)
     && (hs_LeafFraction hs =? 32)
  then None else Some ErrIncompatible.

Definition check_schema_format (hs : rawHeader) : option error :=
  if (hs_SchemaFormat hs =? 2) || (hs_SchemaFormat hs =? 3)
     || (hs_SchemaFormat hs =? 4)
  then None else Some ErrIncompatible.

Definition check_text_encoding (hs : rawHeader) : option error :=
  if hs_TextEncoding hs =? 1 then None
  else if (hs_TextEncoding hs =? 2) || (hs_TextEncoding hs =? 3)
  then Some ErrEncoding
  else Some ErrIncompatible.

Definition check_reserved_bytes (hs : rawHeader) : option error :=
  if forallb (fun v => Byte.eqb v x00) (hs_ReservedForExpansion hs)
  then None else Some ErrIncompatible.

Definition spec_checks : list (rawHeader -> option error) :=
  [check_magic; check_page_size; check_read_version; check_reserved_space;
   check_fractions; check_schema_format; check_text_encoding;
   check_reserved_bytes].

Fixpoint first_failure (cs : list (rawHeader -> option error))
    (hs : rawHeader) : option error :=
  match cs with
  | [] => None
  | c :: cs' => match c hs with
                | Some e => Some e
                | None => first_failure cs' hs
                end
  end.

(** ** The pager

    [Database] reaches the file through the [pager] interface only. *)

Class pager (P : Type) : Type := {
  pager_header : P -> list byte * option error;
  pager_page : P -> Z -> Z -> list byte * option error;
  pager_RLock : P -> option error;
  pager_RUnlock : P -> option error;
  pager_CheckReservedLock : P -> bool * option error;
  pager_Close : P -> option error
}.

(** Go's [int] and [int64] on the 64-bit targets: two's complement
    wrap-around of a mathematical integer. *)
Definition wrap64 (z : Z) : Z := (z + 2 ^ 63) mod 2 ^ 64 - 2 ^ 63.

(** [make([]byte, n)]: [n] zero bytes, for [0 <= n].  Go panics on a
    negative [n], which this function does not model: every statement
    about it below is for a size that is not negative (the header size, or
    a page size with [0 <= ps] as a hypothesis). *)
Definition make (n : Z) : list byte := repeat x00 (Z.to_nat n).

(** [ReaderAt.ReadAt(p, off)] of golang.org/x/exp/mmap over the bytes
    [data] of an open mapping: an offset outside [0, len(data)] is refused;
    otherwise the bytes from [off] on are copied into [p], and a short copy
    is reported as [io.EOF].  The result is [p] after the call, the number
    of bytes copied and the error. *)
Definition mmap_ReadAt (data p : list byte) (off : Z)
    : list byte * Z * option error :=
  if (off <? 0) || (Z.of_nat (length data) <? off)
  then (p, 0, Some (mmap_invalid_offset off))
  else
    let src := firstn (length p) (skipn (Z.to_nat off) data) in
    let p' := src ++ skipn (length src) p in
    if (length src <? length p)%nat
    then (p', Z.of_nat (length src), Some io_EOF)
    else (p', Z.of_nat (length src), None).

(** The state of a path of the file system, as [os.Open] and the mapping
    see it. *)
Inductive fileState : Type :=
| FileAbsent
| FileUnreadable (e : error)
| FileBytes (data : list byte).

Definition fileSystem : Type := string -> fileState.

Record filePager : Type := mkFilePager {
  f : string;          (* the open file, by its path *)
  mm : list byte       (* the bytes of the mapping *)
}.


Definition newFilePager (fs : fileSystem) (file : string)
    : result filePager :=
  match fs file with
  | FileAbsent => Err (os_error "file does not exist")
  | FileUnreadable e => Err e
  | FileBytes data => Ok (mkFilePager file data)
  end.

(** pages start counting at 1 *)
Definition filePager_page (fp : filePager) (id pagesize : Z)
    : list byte * option error :=
  let buf := make pagesize in
  let '(buf, _, err) :=
    mmap_ReadAt (mm fp) buf (wrap64 (wrap64 (id - 1) * pagesize)) in
  (buf, err).

(** Modelled from the spec: [filePager.header], which the Windows pager
    file does not contain.  It returns the first 100 bytes of the file and
    fails when the file is shorter than the header. *)
Definition filePager_header (fp : filePager) : list byte * option error :=
  let '(buf, _, err) := mmap_ReadAt (mm fp) (make (Z.of_nat headerSize)) 0 in
  (buf, err).

Definition filePager_RLock (fp : filePager) : option error := None.

Definition filePager_RUnlock (fp : filePager) : option error := None.

(** True if there is a 'reserved' lock on the database, by any process. *)
Definition filePager_CheckReservedLock (fp : filePager) : bool * option error :=
  (false, None).

Definition filePager_Close (fp : filePager) : option error := None.

#[global] Instance filePager_pager : pager filePager := {
  pager_header := filePager_header;
  pager_page := filePager_page;
  pager_RLock := filePager_RLock;
  pager_RUnlock := filePager_RUnlock;
  pager_CheckReservedLock := filePager_CheckReservedLock;
  pager_Close := filePager_Close
}.

(** ** The rollback journal

    ["\xd9\xd5\x05\xf9\x20\xa1\x63\xd7"] *)
Definition journalMagic : list byte :=
  [xd9; xd5; x05; xf9; x20; xa1; x63; xd7].

(** Modelled from the spec: [validJournal], whose file is not among the
    sources.  A journal is hot when the file exists, holds at least 28
    bytes, starts with the journal magic and its first page-count field
    (the four bytes after the magic) is not zero.  A missing file is no
    journal; any other failure to read it is an error. *)
Definition validJournal (fs : fileSystem) (file : string)
    : bool * option error :=
  match fs file with
  | FileAbsent => (false, None)
  | FileUnreadable e => (false, Some e)
  | FileBytes d =>
      ((28 <=? length d)%nat
       && bytes_eqb (slice d 0 8) journalMagic
       && negb (be32 d 8 =? 0), None)
  end.

(** ** Records, cells and b-tree pages *)

(** A column value: Go's [nil], [int64], [float64] (by its IEEE-754 bits),
    [string] and [[]byte]. *)
Inductive value : Type :=
| VNull
| VInt (n : Z)
| VFloat (bits : Z)
| VText (s : string)
| VBlob (b : list byte).

(** Go's [Record], a [[]interface{}]. *)
Definition Record_ : Type := list value.

(** The type assertions [v.(string)] and [v.(int64)]. *)
Definition as_string (v : value) : option string :=
  match v with VText s => Some s | _ => None end.

Definition as_int64 (v : value) : option Z :=
  match v with VInt n => Some n | _ => None end.

(** Modelled from the spec: the payload of a cell, as the inline bytes, the
    total length and the first overflow page. *)
Record cellPayload : Type := mkPayload {
  Length : Z;
  Payload : list byte;
  Overflow : Z
}.

(** Modelled from the spec: the four page kinds.  Table pages implement
    [tableBtree], index pages [indexBtree]; an interior cell starts with
    its left child page. *)
Inductive tableBtree : Type :=
| tableLeaf (cells : list (Z * cellPayload))          (* rowid, payload *)
| tableInterior (cells : list (Z * Z)) (rightmost : Z).  (* left, rowid *)

Inductive indexBtree : Type :=
| indexLeaf (cells : list cellPayload)
| indexInterior (cells : list (Z * cellPayload)) (rightmost : Z).

(** What [openPage] hands out as [interface{}]. *)
Inductive btreePage : Type :=
| isTable (t : tableBtree)
| isIndex (i : indexBtree).

(** Modelled from the spec: the maximal depth of a traversal. *)
Definition maxRecursion : nat := 1000.

(** ** The caches *)

(** Modelled from the spec: the page cache, a least-recently-used list of
    decoded pages by page number, most recent first, with a capacity. *)
Record btreeCache : Type := mkBtreeCache {
  bc_size : nat;
  bc_entries : list (Z * btreePage)
}.

Definition newBtreeCache (size : nat) : btreeCache := mkBtreeCache size [].

Definition btreeCache_get (c : btreeCache) (page : Z)
    : option btreePage * btreeCache :=
  match find (fun e => fst e =? page) (bc_entries c) with
  | Some e =>
      (Some (snd e),
       mkBtreeCache (bc_size c)
         (e :: filter (fun e' => negb (fst e' =? page)) (bc_entries c)))
  | None => (None, c)
  end.

Definition btreeCache_set (c : btreeCache) (page : Z) (p : btreePage)
    : btreeCache :=
  mkBtreeCache (bc_size c)
    (firstn (bc_size c)
       ((page, p) :: filter (fun e' => negb (fst e' =? page)) (bc_entries c))).

Definition btreeCache_clear (c : btreeCache) : btreeCache :=
  mkBtreeCache (bc_size c) [].

(** master records are defined as:
    CREATE TABLE sqlite_master(
        type text, name text, tbl_name text, rootpage integer, sql text); *)
Record sqliteMaster : Type := mkMaster {
  typ : string;
  name : string;
  tblName : string;
  rootPage : Z;
  sql : string
}.

Record objectCache : Type := mkObjectCache {
  objects : list sqliteMaster;
  err : option error
}.

(** ** The database *)

Record Database (P : Type) : Type := mkDatabase {
  d_journal : string;
  d_dirty : bool;                        (* reload header if true *)
  d_l : P;
  d_header : option header;              (* *header, nil before the first read *)
  d_btreeCache : btreeCache;             (* table and index page cache *)
  d_objectCache : option objectCache
}.
Arguments mkDatabase {P} _ _ _ _ _ _.
Arguments d_journal {P} _.
Arguments d_dirty {P} _.
Arguments d_l {P} _.
Arguments d_header {P} _.
Arguments d_btreeCache {P} _.
Arguments d_objectCache {P} _.

Definition set_dirty {P} (v : bool) (db : Database P) : Database P :=
  mkDatabase (d_journal db) v (d_l db) (d_header db) (d_btreeCache db)
             (d_objectCache db).

Definition set_header {P} (v : option header) (db : Database P) : Database P :=
  mkDatabase (d_journal db) (d_dirty db) (d_l db) v (d_btreeCache db)
             (d_objectCache db).

Definition set_btreeCache {P} (v : btreeCache) (db : Database P) : Database P :=
  mkDatabase (d_journal db) (d_dirty db) (d_l db) (d_header db) v
             (d_objectCache db).

Definition set_objectCache {P} (v : option objectCache) (db : Database P)
    : Database P :=
  mkDatabase (d_journal db) (d_dirty db) (d_l db) (d_header db)
             (d_btreeCache db) v.

(** Go pointers to a [Database]: addresses into a store.  A method reached
    through a dangling address does not return (a nil dereference), which
    the store operations below render as [None]. *)
Definition loc : Type := positive.

Record Table : Type := mkTable {
  t_db : loc;
  t_root : Z;
  t_sql : string
}.

Record Index : Type := mkIndex {
  in_db : loc;
  in_root : Z;
  in_sql : string
}.

(** ** Operations of the database

    The file system the journal is looked up in, the page decoder
    [newBtree], the overflow assembler [addOverflow] and the record decoder
    [parseRecord] live in other files of the package; the operations below
    take them as they are. *)

Section Operations.

Context {P : Type} `{pager P}.

Variable fs : fileSystem.
Variable newBtree : list byte -> bool -> result btreePage.
Variable addOverflow : Database P -> cellPayload -> list byte * option error.
Variable parseRecord : list byte -> Record_ * option error.

(** The journal gate of [resolveDirty]: the error it leaves with, if any. *)
Definition journalGate (db : Database P) : option error :=
  if negb (String.eqb (d_journal db) "") then
    match validJournal fs (d_journal db) with
    | (_, Some err) => Some err
    | (hot, None) =>
        if hot then
          (* If something is using the transaction the db will have a
             RESERVED lock. *)
          match pager_CheckReservedLock (d_l db) with
          | (_, Some err) => Some err
          | (locked, None) => if negb locked then Some ErrHotJournal else None
          end
        else None
    end
  else None.

Definition resolveDirty (db : Database P) : option error * Database P :=
  if negb (d_dirty db) then (None, db)
  else
    match journalGate db with
    | Some err => (Some err, db)
    | None =>
        match pager_header (d_l db) with
        | (_, Some err) => (Some err, db)
        | (buf, None) =>
            match parseHeader buf with
            | (_, Some err) => (Some err, db)
            | (newHeader, None) =>
                let db :=
                  match d_header db with
                  | Some h =>
                      if negb (ChangeCounter h =? ChangeCounter newHeader)
                      then set_btreeCache (btreeCache_clear (d_btreeCache db)) db
                      else db
                  | None => db
                  end in
                let db :=
                  match d_header db with
                  | Some h =>
                      if negb (SchemaCookie h =? SchemaCookie newHeader)
                      then set_objectCache None db
                      else db
                  | None => db
                  end in
                let db := set_dirty false db in
                let db := set_header (Some newHeader) db in
                (None, db)
            end
        end
    end.

Definition newDatabase (l : P) (journal : string)
    : Database P * option error :=
  let d := mkDatabase journal true l None (newBtreeCache CachePages) None in
  let '(err, d) := resolveDirty d in
  (d, err).

(** Close the database. *)
Definition Database_Close (db : Database P) : option error :=
  pager_Close (d_l db).

(** Lock database for reading. *)
Definition Database_RLock (db : Database P) : option error * Database P :=
  let db := set_dirty true db in
  (pager_RLock (d_l db), db).

Definition Database_RUnlock (db : Database P) : option error :=
  pager_RUnlock (d_l db).

(** n starts at 1, sqlite style.  [None] is the nil dereference of
    [db.header] on a database whose header was never read. *)
Definition Database_page (db : Database P) (id : Z)
    : option (list byte * option error) :=
  if id <? 1 then Some ([], Some (errors_New "invalid page number"))
  else
    match d_header db with
    | None => None
    | Some h => Some (pager_page (d_l db) id (PageSize h))
    end.

(** openPage returns a tableBtree or indexBtree *)
Definition openPage (db : Database P) (page : Z)
    : option (result btreePage * Database P) :=
  match resolveDirty db with
  | (Some err, db) => Some (Err err, db)
  | (None, db) =>
      match btreeCache_get (d_btreeCache db) page with
      | (Some p, c) => Some (Ok p, set_btreeCache c db)
      | (None, c) =>
          let db := set_btreeCache c db in
          match Database_page db page with
          | None => None
          | Some (_, Some err) => Some (Err err, db)
          | Some (buf, None) =>
              match newBtree buf (page =? 1) with
              | Ok p =>
                  Some (Ok p,
                        set_btreeCache (btreeCache_set (d_btreeCache db) page p) db)
              | Err err => Some (Err err, db)
              end
          end
      end
  end.

Definition openTable (db : Database P) (page : Z)
    : option (result tableBtree * Database P) :=
  match openPage db page with
  | None => None
  | Some (Err err, db) => Some (Err err, db)
  | Some (Ok (isTable tb), db) => Some (Ok tb, db)
  | Some (Ok (isIndex _), db) =>
      Some (Err (errors_New "found an index, expected a table"), db)
  end.

Definition openIndex (db : Database P) (page : Z)
    : option (result indexBtree * Database P) :=
  match openPage db page with
  | None => None
  | Some (Err err, db) => Some (Err err, db)
  | Some (Ok (isIndex tb), db) => Some (Ok tb, db)
  | Some (Ok (isTable _), db) =>
      Some (Err (errors_New "found a table, expected an index"), db)
  end.

(** *** Traversal

    Modelled from the spec: [Iter] of the four page kinds, an in-order
    traversal that hands every cell to the callback, left to right.  The
    callback answers with a stop flag and an error; either ends the
    traversal at once.  An interior page opens each child through the
    database and spends one unit of the depth budget; with no budget left
    it fails with [ErrRecursion].

    A callback is a Go closure: it sees the database and owns a state of
    its own, of type [A]. *)

Definition step (A : Type) : Type := (bool * option error) * A.

Definition halts (r : bool * option error) : bool :=
  fst r || bool_decide (snd r <> None).

Fixpoint tableLeaf_Iter {A} (cb : Database P -> Z -> cellPayload -> A -> step A)
    (cells : list (Z * cellPayload)) (db : Database P) (a : A) : step A :=
  match cells with
  | [] => ((false, None), a)
  | (rowid, pl) :: cells' =>
      let '(r, a) := cb db rowid pl a in
      if halts r then (r, a) else tableLeaf_Iter cb cells' db a
  end.

Fixpoint tableInterior_Iter {A}
    (child : tableBtree -> Database P -> A -> option (step A * Database P))
    (cells : list (Z * Z)) (rightmost : Z) (db : Database P) (a : A)
    : option (step A * Database P) :=
  match cells with
  | [] =>
      match openTable db rightmost with
      | None => None
      | Some (Err err, db) => Some (((false, Some err), a), db)
      | Some (Ok rp, db) => child rp db a
      end
  | (lchild, _) :: cells' =>
      match openTable db lchild with
      | None => None
      | Some (Err err, db) => Some (((false, Some err), a), db)
      | Some (Ok lp, db) =>
          match child lp db a with
          | None => None
          | Some ((r, a), db) =>
              if halts r then Some ((r, a), db)
              else tableInterior_Iter child cells' rightmost db a
          end
      end
  end.

Fixpoint tableBtree_Iter {A} (r : nat) (root : tableBtree)
    (cb : Database P -> Z -> cellPayload -> A -> step A)
    (db : Database P) (a : A) : option (step A * Database P) :=
  match root with
  | tableLeaf cells => Some (tableLeaf_Iter cb cells db a, db)
  | tableInterior cells rightmost =>
      match r with
      | O => Some (((false, Some ErrRecursion), a), db)
      | S r' =>
          tableInterior_Iter (fun p => tableBtree_Iter r' p cb)
                             cells rightmost db a
      end
  end.

Fixpoint indexLeaf_Iter {A} (cb : Database P -> cellPayload -> A -> step A)
    (cells : list cellPayload) (db : Database P) (a : A) : step A :=
  match cells with
  | [] => ((false, None), a)
  | pl :: cells' =>
      let '(r, a) := cb db pl a in
      if halts r then (r, a) else indexLeaf_Iter cb cells' db a
  end.

(** An interior index cell carries an entry of its own, visited after the
    subtree on its left. *)
Fixpoint indexInterior_Iter {A}
    (child : indexBtree -> Database P -> A -> option (step A * Database P))
    (cb : Database P -> cellPayload -> A -> step A)
    (cells : list (Z * cellPayload)) (rightmost : Z) (db : Database P) (a : A)
    : option (step A * Database P) :=
  match cells with
  | [] =>
      match openIndex db rightmost with
      | None => None
      | Some (Err err, db) => Some (((false, Some err), a), db)
      | Some (Ok rp, db) => child rp db a
      end
  | (lchild, pl) :: cells' =>
      match openIndex db lchild with
      | None => None
      | Some (Err err, db) => Some (((false, Some err), a), db)
      | Some (Ok lp, db) =>
          match child lp db a with
          | None => None
          | Some ((r, a), db) =>
              if halts r then Some ((r, a), db)
              else
                let '(r, a) := cb db pl a in
                if halts r then Some ((r, a), db)
                else indexInterior_Iter child cb cells' rightmost db a
          end
      end
  end.

Fixpoint indexBtree_Iter {A} (r : nat) (root : indexBtree)
    (cb : Database P -> cellPayload -> A -> step A)
    (db : Database P) (a : A) : option (step A * Database P) :=
  match root with
  | indexLeaf cells => Some (indexLeaf_Iter cb cells db a, db)
  | indexInterior cells rightmost =>
      match r with
      | O => Some (((false, Some ErrRecursion), a), db)
      | S r' =>
          indexInterior_Iter (fun p => indexBtree_Iter r' p cb) cb
                             cells rightmost db a
      end
  end.

(** *** sqlite_master *)

(** The callback [master] hands to [Iter]; its state is the [objects]
    slice it appends to. *)
Definition master_cb (db : Database P) (rowid : Z) (pl : cellPayload)
    (objects : list sqliteMaster) : step (list sqliteMaster) :=
  match addOverflow db pl with
  | (_, Some err) => ((false, Some err), objects)
  | (c, None) =>
      match parseRecord c with
      | (_, Some err) => ((false, Some err), objects)
      | (e, None) =>
          if negb (length e =? 5)%nat then ((false, Some ErrInvalidDef), objects)
          else
            match as_string (nth 0 e VNull) with
            | None => ((false, Some ErrInvalidDef), objects)
            | Some s0 =>
            match as_string (nth 1 e VNull) with
            | None => ((false, Some ErrInvalidDef), objects)
            | Some s1 =>
            match as_string (nth 2 e VNull) with
            | None => ((false, Some ErrInvalidDef), objects)
            | Some s2 =>
            match as_int64 (nth 3 e VNull) with
            | None => ((false, Some ErrInvalidDef), objects)
            | Some n =>
            match as_string (nth 4 e VNull) with
            | None => ((false, Some ErrInvalidDef), objects)
            | Some s4 =>
                ((false, None), objects ++ [mkMaster s0 s1 s2 n s4])
            end end end end end
      end
  end.

Definition master (db : Database P)
    : option ((list sqliteMaster * option error) * Database P) :=
  match resolveDirty db with
  | (Some err, db) => Some (([], Some err), db)
  | (None, db) =>
      match d_objectCache db with
      | Some o => Some ((objects o, err o), db)
      | None =>
          match openTable db 1 with
          | None => None
          | Some (Err err, db) => Some (([], Some err), db)
          | Some (Ok root, db) =>
              match tableBtree_Iter maxRecursion root master_cb db [] with
              | None => None
              | Some (((_, err), objects), db) =>
                  let db := set_objectCache (Some (mkObjectCache objects err)) db in
                  Some ((objects, err), db)
              end
          end
      end
  end.

Definition objectNames (db : Database P) (ty : string)
    : option ((list string * option error) * Database P) :=
  match master db with
  | None => None
  | Some ((_, Some err), db) => Some (([], Some err), db)
  | Some ((objects, None), db) =>
      Some ((map name (filter (fun o => String.eqb (typ o) ty) objects), None), db)
  end.

(** Tables lists all table names. Also sqlite internal ones. *)
Definition Database_Tables (db : Database P) := objectNames db "table".

(** Indexes lists all index names. *)
Definition Database_Indexes (db : Database P) := objectNames db "index".

(** *** Handles

    [Table] and [Index] keep the pointer to their database, so the methods
    that hand them out or use them work on a store of databases. *)

Local Abbreviation store := (gmap loc (Database P)).

(** Table opens the named table. *)
Definition Database_Table (p : loc) (nm : string) (h : store)
    : option (result Table * store) :=
  match h !! p with
  | None => None
  | Some db =>
      match master db with
      | None => None
      | Some ((_, Some err), db) => Some (Err err, <[p := db]> h)
      | Some ((objects, None), db) =>
          match find (fun o => String.eqb (typ o) "table" && String.eqb (name o) nm)
                     objects with
          | Some o => Some (Ok (mkTable p (rootPage o) (sql o)), <[p := db]> h)
          | None => Some (Err ErrNoSuchTable, <[p := db]> h)
          end
      end
  end.

(** Index opens the named index. *)
Definition Database_Index (p : loc) (nm : string) (h : store)
    : option (result Index * store) :=
  match h !! p with
  | None => None
  | Some db =>
      match master db with
      | None => None
      | Some ((_, Some err), db) => Some (Err err, <[p := db]> h)
      | Some ((objects, None), db) =>
          match find (fun o => String.eqb (typ o) "index" && String.eqb (name o) nm)
                     objects with
          | Some o => Some (Ok (mkIndex p (rootPage o) (sql o)), <[p := db]> h)
          | None => Some (Err ErrNoSuchIndex, <[p := db]> h)
          end
      end
  end.

(** *** Scans

    A user callback gets the row and answers with the stop flag; [A] is the
    state it closes over. *)

Definition TableScanCB (A : Type) : Type := Z -> Record_ -> A -> bool * A.

Definition RecordCB (A : Type) : Type := Record_ -> A -> bool * A.

(** The closure [Table.Scan] hands to [Iter]. *)
Definition Table_Scan_cb {A} (cb : TableScanCB A) (db : Database P)
    (rowid : Z) (pl : cellPayload) (a : A) : step A :=
  match addOverflow db pl with
  | (_, Some err) => ((false, Some err), a)
  | (c, None) =>
      match parseRecord c with
      | (_, Some err) => ((false, Some err), a)
      | (rec, None) => let '(stop, a) := cb rowid rec a in ((stop, None), a)
      end
  end.

(** Scan calls cb() for every row in the table. *)
Definition Table_Scan {A} (t : Table) (cb : TableScanCB A) (h : store) (a : A)
    : option (option error * A * store) :=
  match h !! t_db t with
  | None => None
  | Some db =>
      match openTable db (t_root t) with
      | None => None
      | Some (Err err, db) => Some (Some err, a, <[t_db t := db]> h)
      | Some (Ok root, db) =>
          match tableBtree_Iter maxRecursion root (Table_Scan_cb cb) db a with
          | None => None
          | Some (((_, err), a), db) => Some (err, a, <[t_db t := db]> h)
          end
      end
  end.

(** The closure [Index.Scan] hands to [Iter]. *)
Definition Index_Scan_cb {A} (cb : RecordCB A) (db : Database P)
    (pl : cellPayload) (a : A) : step A :=
  match addOverflow db pl with
  | (_, Some err) => ((false, Some err), a)
  | (full, None) =>
      match parseRecord full with
      | (_, Some err) => ((false, Some err), a)
      | (rec, None) => let '(stop, a) := cb rec a in ((stop, None), a)
      end
  end.

(** Scan calls cb() for every row in the index. *)
Definition Index_Scan {A} (ix : Index) (cb : RecordCB A) (h : store) (a : A)
    : option (option error * A * store) :=
  match h !! in_db ix with
  | None => None
  | Some db =>
      match openIndex db (in_root ix) with
      | None => None
      | Some (Err err, db) => Some (Some err, a, <[in_db ix := db]> h)
      | Some (Ok root, db) =>
          match indexBtree_Iter maxRecursion root (Index_Scan_cb cb) db a with
          | None => None
          | Some (((_, err), a), db) => Some (err, a, <[in_db ix := db]> h)
          end
      end
  end.

(** withoutRowid is true if this is a 'WITHOUT ROWID' table *)
Definition Table_withoutRowid (t : Table) (h : store) : option (bool * store) :=
  match h !! t_db t with
  | None => None
  | Some db =>
      match openIndex db (t_root t) with
      | None => None
      | Some (Ok _, db) => Some (true, <[t_db t := db]> h)
      | Some (Err _, db) => Some (false, <[t_db t := db]> h)
      end
  end.

(** WithoutRowidScan is like Table.Scan(), but for 'WITHOUT ROWID' tables.
    Its closure reads like that of [Index.Scan]. *)
Definition Table_WithoutRowidScan {A} (t : Table) (cb : RecordCB A) (h : store)
    (a : A) : option (option error * A * store) :=
  match h !! t_db t with
  | None => None
  | Some db =>
      match openIndex db (t_root t) with
      | None => None
      | Some (Err err, db) => Some (Some err, a, <[t_db t := db]> h)
      | Some (Ok root, db) =>
          match indexBtree_Iter maxRecursion root (Index_Scan_cb cb) db a with
          | None => None
          | Some (((_, err), a), db) => Some (err, a, <[t_db t := db]> h)
          end
      end
  end.

End Operations.

(** OpenFile opens a .sqlite file. This is the main entry point. *)
Definition OpenFile (fs : fileSystem) (file : string)
    : option (Database filePager) * option error :=
  match newFilePager fs file with
  | Err err => (None, Some err)
  | Ok l =>
      let '(d, err) := newDatabase fs l (file ++ "-journal")%string in
      (Some d, err)
  end.

(** ** Notions the properties are stated with *)

(** The shape [master] asks of a row: five values, text, text, text,
    integer, text; and the object such a row stands for. *)
Definition well_shaped (e : Record_) : option sqliteMaster :=
  match e with
  | [VText ty; VText nm; VText tbl; VInt root; VText def] =>
      Some (mkMaster ty nm tbl root def)
  | _ => None
  end.

(** [o] is the first element of [l] that satisfies [f]. *)
Definition first_match {A} (f : A -> bool) (l : list A) (o : A) : Prop :=
  exists pre post,
    l = pre ++ o :: post /\ f o = true /\ Forall (fun x => f x = false) pre.

(** A user callback that also keeps the log of the stop flags it
    answered, oldest first. *)
Definition logged_table {A} (cb : TableScanCB A) : TableScanCB (list bool * A) :=
  fun rowid rec s =>
    let '(stop, a) := cb rowid rec (snd s) in
    (stop, (fst s ++ [stop], a)).

Definition logged_record {A} (cb : RecordCB A) : RecordCB (list bool * A) :=
  fun rec s =>
    let '(stop, a) := cb rec (snd s) in
    (stop, (fst s ++ [stop], a)).

(** No callback in the log asked to stop. *)
Definition quiet (log : list bool) : Prop := Forall (fun b => b = false) log.

(** What a traversal leaves behind: either nobody asked to stop and the
    traversal does not report "done", or the last call asked to stop,
    nobody before it did, and the traversal reports "done" and no error. *)
Definition stop_honoured {A} (s : step (list bool * A)) : Prop :=
  (fst (fst s) = false /\ quiet (fst (snd s)))
  \/ (fst s = (true, None)
      /\ exists l, fst (snd s) = l ++ [true] /\ quiet l).

(** A database whose dirty flag is clear has read its header. *)
Definition header_loaded {P} (db : Database P) : Prop :=
  d_dirty db = false -> d_header db <> None.

(** Reading decoded rows in order into the object list, up to the first
    row that is not well shaped. *)
Fixpoint read_rows (rows : list Record_) (objects : list sqliteMaster)
    : list sqliteMaster * option error :=
  match rows with
  | [] => (objects, None)
  | e :: rows' =>
      match well_shaped e with
      | Some m => read_rows rows' (objects ++ [m])
      | None => (objects, Some ErrInvalidDef)
      end
  end.

(** Two runs of a callback or of a traversal, over states related by [R],
    that answer alike and leave related states (and the same database). *)
Definition same_step {A B} (R : A -> B -> Prop) (x : step A) (y : step B)
    : Prop :=
  fst x = fst y /\ R (snd x) (snd y).

Definition same_run {P A B} (R : A -> B -> Prop)
    (x : option (step A * Database P)) (y : option (step B * Database P))
    : Prop :=
  match x, y with
  | Some (sa, da), Some (sb, db) => same_step R sa sb /\ da = db
  | None, None => True
  | _, _ => False
  end.

(** The state of a logging callback without its log. *)
Definition unlogged {A} (a : A) (s : list bool * A) : Prop := a = snd s.

(** The offsets of the header that [parseHeader] reads into blank fields:
    the write version, the database size and free-list words, the cache
    size, vacuum and user-version words, and the two version words at the
    end. *)
Definition unnamed_offset (i : nat) : bool :=
  ((i =? 18) || ((28 <=? i) && (i <? 40)) || ((48 <=? i) && (i <? 56))
   || ((60 <=? i) && (i <? 72)) || ((92 <=? i) && (i <? 100)))%nat.

(** The pages [1..n] of a file, in order, with the error of each read. *)
Definition all_pages (fp : filePager) (n : nat) (pagesize : Z)
    : list (list byte * option error) :=
  map (fun i => filePager_page fp (Z.of_nat i + 1) pagesize) (seq 0 n).

(** ** Fixtures

    A 100-byte header from its fields, for the concrete runs below. *)

Definition byte_of_Z (z : Z) : byte :=
  match Byte.of_N (Z.to_N (z mod 256)) with
  | Some b => b
  | None => x00
  end.

Definition put16 (z : Z) : list byte :=
  [byte_of_Z (Z.shiftr z 8); byte_of_Z z].

Definition put32 (z : Z) : list byte :=
  [byte_of_Z (Z.shiftr z 24); byte_of_Z (Z.shiftr z 16);
   byte_of_Z (Z.shiftr z 8); byte_of_Z z].

Definition header_bytes (pagesize readversion reserved changecounter
                         schemacookie schemaformat textencoding : Z)
    : list byte :=
  headerMagic ++ put16 pagesize
    ++ [x01; byte_of_Z readversion; byte_of_Z reserved; x40; x20; x20]
    ++ put32 changecounter ++ repeat x00 12
    ++ put32 schemacookie ++ put32 schemaformat ++ repeat x00 8
    ++ put32 textencoding ++ repeat x00 12
    ++ repeat x00 20 ++ repeat x00 8.

(** A well-formed header: 4096-byte pages, change counter 7, cookie 3. *)
Definition good_header : list byte := header_bytes 4096 1 0 7 3 4 1.

(** The same header in WAL mode (read version 2). *)
Definition wal_header : list byte := header_bytes 4096 2 0 7 3 4 1.

(** A journal of 28 bytes with the magic and a page count of 1. *)
Definition hot_journal : list byte :=
  journalMagic ++ put32 1 ++ repeat x00 16.

(** A file system from a list of paths and contents. *)
Definition fs_of (files : list (string * list byte)) : fileSystem :=
  fun path =>
    match find (fun e => String.eqb (fst e) path) files with
    | Some e => FileBytes (snd e)
    | None => FileAbsent
    end.

Definition fs_plain : fileSystem := fs_of [("db.sqlite", good_header)].

Definition fs_hot : fileSystem :=
  fs_of [("db.sqlite", good_header); ("db.sqlite-journal", hot_journal)].

Definition fs_wal : fileSystem := fs_of [("wal.sqlite", wal_header)].

Definition fs_wal_hot : fileSystem :=
  fs_of [("wal.sqlite", wal_header); ("wal.sqlite-journal", hot_journal)].

Definition hello_master : sqliteMaster :=
  mkMaster "table" "hello" "hello" 2 "CREATE TABLE hello (a, b, c)".

(** A database that was read at change counter 6 and schema cookie 3, has
    one decoded page and the master list cached, and is marked dirty; its
    file is now at change counter 7. *)
Definition stale_db : Database filePager :=
  mkDatabase "db.sqlite-journal" true (mkFilePager "db.sqlite" good_header)
             (Some (mkHeader 4096 6 3))
             (mkBtreeCache CachePages [(2, isTable (tableLeaf []))])
             (Some (mkObjectCache [hello_master] None)).

(** The same database with the dirty flag clear. *)
Definition clean_db : Database filePager := set_dirty false stale_db.

(** The same stale state over a file that has since been put in WAL mode
    (read version 2), with no journal beside it. *)
Definition stale_wal_db : Database filePager :=
  mkDatabase "wal.sqlite-journal" true (mkFilePager "wal.sqlite" wal_header)
             (Some (mkHeader 4096 6 3))
             (mkBtreeCache CachePages [(2, isTable (tableLeaf []))])
             (Some (mkObjectCache [hello_master] None)).

(** The database after a successful reload of the header [nh]. *)
Definition reloaded {P} (db : Database P) (nh : header) : Database P :=
  mkDatabase (d_journal db) false (d_l db) (Some nh)
    (match d_header db with
     | Some h =>
         if ChangeCounter h =? ChangeCounter nh then d_btreeCache db
         else btreeCache_clear (d_btreeCache db)
     | None => d_btreeCache db
     end)
    (match d_header db with
     | Some h =>
         if SchemaCookie h =? SchemaCookie nh then d_objectCache db
         else None
     | None => d_objectCache db
     end).

(** A database over a file of a single 512-byte page, with the header
    read. *)
Definition one_page_db : Database filePager :=
  mkDatabase "small.sqlite-journal" false
             (mkFilePager "small.sqlite"
                (header_bytes 512 1 0 1 1 4 1 ++ repeat x00 412))
             (Some (mkHeader 512 1 1)) (newBtreeCache CachePages) None.

(** A page decoder, an overflow assembler and a record decoder small
    enough to run by hand.  A page is a kind byte ([0x0d] table leaf,
    [0x05] table interior, [0x0a] index leaf), a count [n] and [n] entry
    bytes: for a leaf each byte is the payload of one cell (rowids count
    from 1), for an interior page each byte is a child page and one more
    byte names the rightmost child.  Page 1 starts after the file header.
    A payload is one byte that names a row of a fixed list. *)

Definition toy_rowids {A} (xs : list A) : list (Z * A) :=
  combine (map Z.of_nat (seq 1 (length xs))) xs.

Definition toy_newBtree (buf : list byte) (isFileHeader : bool)
    : result btreePage :=
  let body := if isFileHeader then skipn headerSize buf else buf in
  match body with
  | kind :: n :: rest =>
      let count := N.to_nat (Byte.to_N n) in
      let entries := firstn count rest in
      if Byte.eqb kind x0d then
        Ok (isTable (tableLeaf
              (toy_rowids (map (fun b => mkPayload 1 [b] 0) entries))))
      else if Byte.eqb kind x05 then
        Ok (isTable (tableInterior
              (map (fun b => (Z.of_N (Byte.to_N b), 0)) entries)
              (Z.of_N (Byte.to_N (nth count rest x00)))))
      else if Byte.eqb kind x0a then
        Ok (isIndex (indexLeaf (map (fun b => mkPayload 1 [b] 0) entries)))
      else Err ErrCorrupted
  | _ => Err ErrCorrupted
  end.

Definition toy_addOverflow {P} (db : Database P) (pl : cellPayload)
    : list byte * option error :=
  (Payload pl, None).

Definition toy_parseRecord (c : list byte) : Record_ * option error :=
  match c with
  | [x01] => ([VText "table"; VText "hello"; VText "hello"; VInt 2;
               VText "CREATE TABLE hello (a, b, c)"], None)
  | [x02] => ([VText "index"; VText "sqlite_autoindex_hello_1";
               VText "hello"; VInt 3; VText ""], None)
  | [x03] => ([VText "table"; VText "short"; VText "short"; VInt 4], None)
  | [x04] => ([VText "table"; VText "odd"; VText "odd"; VText "4";
               VText "CREATE TABLE odd (a)"], None)
  | [x0a] => ([VInt 1; VText "world"; VFloat 4614253070214989087], None)
  | [x0b] => ([VInt 2; VText "hi"; VNull], None)
  | [x0c] => ([VInt 3; VText ""; VInt 0], None)
  | [x0e] => ([VText "world"; VInt 1], None)
  | [x0f] => ([VText "hi"; VInt 2], None)
  | _ => ([], Some ErrCorrupted)
  end.

Definition toy_page (bytes : list byte) : list byte :=
  bytes ++ repeat x00 (512 - length bytes).

(** A file of three 512-byte pages: [sqlite_master] with the table
    [hello] (root 2) and its automatic index (root 3), the three rows of
    [hello], and the two entries of the index. *)
Definition hello_file : list byte :=
  toy_page (header_bytes 512 1 0 1 1 4 1 ++ [x0d; x02; x01; x02])
  ++ toy_page [x0d; x03; x0a; x0b; x0c]
  ++ toy_page [x0a; x02; x0e; x0f].

Definition fs_hello : fileSystem := fs_of [("hello.sqlite", hello_file)].

(** The same file with a hot journal beside it. *)
Definition fs_hello_hot : fileSystem :=
  fs_of [("hello.sqlite", hello_file); ("hello.sqlite-journal", hot_journal)].

Definition hello_db : Database filePager :=
  fst (newDatabase fs_hello (mkFilePager "hello.sqlite" hello_file)
                   "hello.sqlite-journal").

(** A file whose [sqlite_master] holds a good row and then a row of four
    values. *)
Definition short_row_file : list byte :=
  toy_page (header_bytes 512 1 0 1 1 4 1 ++ [x0d; x02; x01; x03]).

Definition fs_short_row : fileSystem :=
  fs_of [("short.sqlite", short_row_file)].

Definition short_row_db : Database filePager :=
  fst (newDatabase fs_short_row (mkFilePager "short.sqlite" short_row_file)
                   "short.sqlite-journal").

(** That database after [master] has run once. *)
Definition short_row_db_read : Database filePager :=
  match master fs_short_row toy_newBtree toy_addOverflow toy_parseRecord
               short_row_db with
  | Some (_, db) => db
  | None => short_row_db
  end.

(** [hello_db] after [master] has run once. *)
Definition hello_db_read : Database filePager :=
  match master fs_hello toy_newBtree toy_addOverflow toy_parseRecord
               hello_db with
  | Some (_, db) => db
  | None => hello_db
  end.

(** A database that read its schema at cookie 2 and cached it; the file
    is now at cookie 3. *)
Definition outdated_schema_db : Database filePager :=
  mkDatabase "db.sqlite-journal" false (mkFilePager "db.sqlite" good_header)
             (Some (mkHeader 4096 7 2)) (newBtreeCache CachePages)
             (Some (mkObjectCache [hello_master] None)).

(** A file whose first page is an index leaf. *)
Definition index_first_file : list byte :=
  toy_page (header_bytes 512 1 0 1 1 4 1 ++ [x0a; x00]).

Definition fs_index_first : fileSystem :=
  fs_of [("odd.sqlite", index_first_file)].

Definition index_first_db : Database filePager :=
  fst (newDatabase fs_index_first (mkFilePager "odd.sqlite" index_first_file)
                   "odd.sqlite-journal").

(** What [newDatabase] leaves of a file in WAL mode. *)
Definition wal_db : Database filePager :=
  fst (newDatabase fs_wal (mkFilePager "wal.sqlite" wal_header)
                   "wal.sqlite-journal").

(** [index_first_db] after an attempt to open its first page as a table. *)
Definition index_first_db_opened : Database filePager :=
  match openTable fs_index_first toy_newBtree index_first_db 1 with
  | Some (_, db) => db
  | None => index_first_db
  end.

(** * Properties *)

(** ** The header parser *)

Lemma popcount_pos (p : positive) : 0 < popcount p.
Proof. induction p; simpl; lia. Qed.

Lemma popcount_one (p : positive) :
  popcount p = 1 -> exists k : nat, Zpos p = 2 ^ Z.of_nat k.
Proof.
  induction p as [q IH | q IH | ]; simpl; intros Hp.
  - pose proof (popcount_pos q). lia.
  - destruct (IH Hp) as [k Hk]. exists (S k).
    rewrite Nat2Z.inj_succ, Z.pow_succ_r by lia.
    rewrite <- Hk. reflexivity.
  - exists O. reflexivity.
Qed.

Lemma pow2_in_range_spec (s : Z) :
  pow2_in_range s = true <-> exists k, 9 <= k <= 16 /\ s = 2 ^ k.
Proof.
  unfold pow2_in_range. rewrite existsb_exists. split.
  - intros (k & Hin & Hk). apply Z.eqb_eq in Hk. exists k. split; [|exact Hk].
    simpl in Hin. lia.
  - intros (k & Hk & ->). exists k. split; [|apply Z.eqb_refl].
    assert (k = 9 \/ k = 10 \/ k = 11 \/ k = 12 \/ k = 13 \/ k = 14 \/ k = 15
            \/ k = 16) as Hc by lia.
    simpl. intuition auto.
Qed.

(** The page-size test of the code accepts exactly the powers of two from
    512 to 65536. *)
Lemma page_size_test (s : Z) :
  (s <? 512) || (s >? Z.shiftl 1 16) || negb (isPower s)
  = negb (pow2_in_range s).
Proof.
  change (Z.shiftl 1 16) with 65536.
  destruct (pow2_in_range s) eqn:Hr.
  - apply pow2_in_range_spec in Hr as (k & Hk & ->).
    assert (k = 9 \/ k = 10 \/ k = 11 \/ k = 12 \/ k = 13 \/ k = 14 \/ k = 15
            \/ k = 16) as Hc by lia.
    destruct Hc as [-> | [-> | [-> | [-> | [-> | [-> | [-> | ->]]]]]]];
      reflexivity.
  - simpl. destruct (s <? 512) eqn:Hlo; [reflexivity|].
    destruct (s >? 65536) eqn:Hhi; [reflexivity|]. simpl.
    apply Z.ltb_ge in Hlo. rewrite Z.gtb_ltb in Hhi. apply Z.ltb_ge in Hhi.
    unfold isPower. destruct (OnesCount s =? 1) eqn:Hone; [|reflexivity].
    exfalso. apply Z.eqb_eq in Hone.
    destruct s as [ | p | p]; try lia. simpl in Hone.
    destruct (popcount_one p Hone) as [k Hk].
    assert (pow2_in_range (Zpos p) = true) as Hyes; [|congruence].
    apply pow2_in_range_spec. exists (Z.of_nat k). split; [|exact Hk].
    rewrite Hk in Hlo, Hhi. split.
    + destruct (Z_le_gt_dec 9 (Z.of_nat k)) as [|Hlt]; [assumption|].
      assert (2 ^ Z.of_nat k <= 2 ^ 8) by (apply Z.pow_le_mono_r; lia).
      change (2 ^ 8) with 256 in *. lia.
    + destruct (Z_le_gt_dec (Z.of_nat k) 16) as [|Hgt]; [assumption|].
      assert (2 ^ 17 <= 2 ^ Z.of_nat k) by (apply Z.pow_le_mono_r; lia).
      change (2 ^ 17) with 131072 in *. lia.
Qed.

Lemma existsb_negb_forallb {A} (f : A -> bool) (xs : list A) :
  existsb (fun v => negb (f v)) xs = negb (forallb f xs).
Proof.
  induction xs as [|x xs IH]; simpl; [reflexivity|].
  rewrite IH. destruct (f x); reflexivity.
Qed.

Lemma binary_Read_full (b : list byte) :
  length b = headerSize -> snd (binary_Read b) = None.
Proof.
  intros Hlen. unfold binary_Read. rewrite Hlen.
  reflexivity.
Qed.

Lemma parseHeader_first_failure (b : list byte) :
  length b = headerSize ->
  snd (parseHeader b) = first_failure spec_checks (fst (binary_Read b)).
Proof.
  intros Hlen. pose proof (binary_Read_full b Hlen) as Hread.
  unfold parseHeader. destruct (binary_Read b) as [hs e]. simpl in Hread.
  subst e. cbn [fst first_failure spec_checks].
  unfold check_magic.
  destruct (bytes_eqb (hs_Magic hs) headerMagic); cbn [negb]; [|reflexivity].
  unfold check_page_size. rewrite page_size_test.
  destruct (hs_PageSize hs =? 1).
  { change (pow2_in_range (Z.shiftl 1 16)) with true. cbn [negb].
    unfold check_read_version.
    destruct (hs_ReadVersion hs =? 1); [|destruct (hs_ReadVersion hs =? 2); reflexivity].
    unfold check_reserved_space.
    destruct (hs_ReservedSpace hs =? 0); cbn [negb]; [|reflexivity].
    unfold check_fractions.
    destruct (hs_MaxFraction hs =? 64), (hs_MinFraction hs =? 32),
      (hs_LeafFraction hs =? 32); cbn [negb orb andb]; try reflexivity.
    unfold check_schema_format.
    destruct ((hs_SchemaFormat hs =? 2) || (hs_SchemaFormat hs =? 3)
              || (hs_SchemaFormat hs =? 4)); [|reflexivity].
    unfold check_text_encoding.
    destruct (hs_TextEncoding hs =? 1);
      [|destruct ((hs_TextEncoding hs =? 2) || (hs_TextEncoding hs =? 3));
        reflexivity].
    unfold check_reserved_bytes. rewrite existsb_negb_forallb.
    destruct (forallb _ _); reflexivity. }
  destruct (pow2_in_range (hs_PageSize hs)); cbn [negb]; [|reflexivity].
  unfold check_read_version.
  destruct (hs_ReadVersion hs =? 1); [|destruct (hs_ReadVersion hs =? 2); reflexivity].
  unfold check_reserved_space.
  destruct (hs_ReservedSpace hs =? 0); cbn [negb]; [|reflexivity].
  unfold check_fractions.
  destruct (hs_MaxFraction hs =? 64), (hs_MinFraction hs =? 32),
    (hs_LeafFraction hs =? 32); cbn [negb orb andb]; try reflexivity.
  unfold check_schema_format.
  destruct ((hs_SchemaFormat hs =? 2) || (hs_SchemaFormat hs =? 3)
            || (hs_SchemaFormat hs =? 4)); [|reflexivity].
  unfold check_text_encoding.
  destruct (hs_TextEncoding hs =? 1);
    [|destruct ((hs_TextEncoding hs =? 2) || (hs_TextEncoding hs =? 3));
      reflexivity].
  unfold check_reserved_bytes. rewrite existsb_negb_forallb.
  destruct (forallb _ _); reflexivity.
Qed.

Ltac split_ifs :=
  repeat match goal with
         | |- context [if ?c then _ else _] => destruct c eqn:?
         end.

Lemma parseHeader_magic (b : list byte) :
  length b = headerSize ->
  check_magic (fst (binary_Read b)) <> None ->
  parseHeader b = (header0, Some ErrInvalidMagic).
Proof.
  intros Hlen. pose proof (binary_Read_full b Hlen) as Hread.
  unfold parseHeader, check_magic. destruct (binary_Read b) as [hs e].
  simpl in Hread. subst e. cbn [fst].
  destruct (bytes_eqb (hs_Magic hs) headerMagic); [congruence | reflexivity].
Qed.

Lemma parseHeader_bad_page_size (b : list byte) :
  length b = headerSize ->
  check_magic (fst (binary_Read b)) = None ->
  check_page_size (fst (binary_Read b)) <> None ->
  parseHeader b = (header0, Some ErrInvalidPageSize).
Proof.
  intros Hlen. pose proof (binary_Read_full b Hlen) as Hread.
  unfold parseHeader, check_magic, check_page_size.
  destruct (binary_Read b) as [hs e]. simpl in Hread. subst e. cbn [fst].
  destruct (bytes_eqb (hs_Magic hs) headerMagic); [|discriminate].
  intros _. rewrite page_size_test. cbn [negb].
  destruct (hs_PageSize hs =? 1); [congruence|].
  destruct (pow2_in_range (hs_PageSize hs)); [congruence | reflexivity].
Qed.

(** Once the magic and the page size are accepted, the header that comes
    back carries the page size, whatever the later checks say. *)
Lemma parseHeader_page_size (b : list byte) :
  length b = headerSize ->
  check_magic (fst (binary_Read b)) = None ->
  check_page_size (fst (binary_Read b)) = None ->
  PageSize (fst (parseHeader b))
  = page_size_of (hs_PageSize (fst (binary_Read b))).
Proof.
  intros Hlen. pose proof (binary_Read_full b Hlen) as Hread.
  unfold parseHeader, check_magic, check_page_size, page_size_of.
  destruct (binary_Read b) as [hs e]. simpl in Hread. subst e. cbn [fst].
  destruct (bytes_eqb (hs_Magic hs) headerMagic); [|discriminate].
  intros _. rewrite page_size_test. cbn [negb].
  destruct (hs_PageSize hs =? 1).
  - intros _. change (pow2_in_range (Z.shiftl 1 16)) with true. cbn [negb].
    split_ifs; reflexivity.
  - destruct (pow2_in_range (hs_PageSize hs)); [|discriminate].
    intros _. cbn [negb]. split_ifs; reflexivity.
Qed.

Lemma parseHeader_ok (b : list byte) :
  length b = headerSize ->
  snd (parseHeader b) = None ->
  fst (parseHeader b)
  = mkHeader (page_size_of (hs_PageSize (fst (binary_Read b))))
             (hs_ChangeCounter (fst (binary_Read b)))
             (hs_SchemaCookie (fst (binary_Read b))).
Proof.
  intros Hlen. pose proof (binary_Read_full b Hlen) as Hread.
  unfold parseHeader, page_size_of.
  destruct (binary_Read b) as [hs e]. simpl in Hread. subst e. cbn [fst].
  destruct (negb (bytes_eqb (hs_Magic hs) headerMagic)); [discriminate|].
  destruct (hs_PageSize hs =? 1); split_ifs; cbn [snd fst];
    first [discriminate | reflexivity].
Qed.

Lemma check_page_size_spec (hs : rawHeader) :
  check_page_size hs = None <->
  exists k, 9 <= k <= 16 /\ page_size_of (hs_PageSize hs) = 2 ^ k.
Proof.
  unfold check_page_size, page_size_of.
  destruct (hs_PageSize hs =? 1) eqn:H1.
  - split; [|reflexivity]. intros _. exists 16. split; [lia | reflexivity].
  - rewrite <- pow2_in_range_spec.
    destruct (pow2_in_range (hs_PageSize hs)); split; congruence.
Qed.

(** C1: [parseHeader] runs the eight checks in the order magic, page size,
    read version, reserved space, page fractions, schema format, text
    encoding, reserved bytes, and its error is that of the first check that
    fails.  A raw page size of 1 stands for 65536; with a good magic, the
    page size is accepted exactly when it is a power of two from 512 to
    65536, and is refused with [ErrInvalidPageSize] otherwise.  When the
    first three checks pass, a reserved-space byte other than zero gives
    [ErrReservedSpace].  An input that passes every check gives the header
    with that page size, the change counter and the schema cookie. *)
Theorem parseHeader_checks_in_order (b : list byte)
    (Hlen : length b = headerSize) :
  let hs := fst (binary_Read b) in
  snd (parseHeader b) = first_failure spec_checks hs
  /\ page_size_of 1 = 65536
  /\ (check_magic hs = None ->
      ((exists k, 9 <= k <= 16 /\ page_size_of (hs_PageSize hs) = 2 ^ k) ->
         snd (parseHeader b) <> Some ErrInvalidPageSize
         /\ PageSize (fst (parseHeader b)) = page_size_of (hs_PageSize hs))
      /\ (~ (exists k, 9 <= k <= 16 /\ page_size_of (hs_PageSize hs) = 2 ^ k) ->
         parseHeader b = (header0, Some ErrInvalidPageSize)))
  /\ (check_magic hs = None -> check_page_size hs = None ->
      check_read_version hs = None -> hs_ReservedSpace hs <> 0 ->
      snd (parseHeader b) = Some ErrReservedSpace)
  /\ (snd (parseHeader b) = None ->
      fst (parseHeader b)
      = mkHeader (page_size_of (hs_PageSize hs)) (hs_ChangeCounter hs)
                 (hs_SchemaCookie hs)).
Proof.
  intros hs. pose proof (parseHeader_first_failure b Hlen) as Hfirst.
  fold hs in Hfirst.
  split; [exact Hfirst|]. split; [reflexivity|]. split; [|split].
  - intros Hmagic. split.
    + intros Hpow. apply check_page_size_spec in Hpow. split.
      * rewrite Hfirst. cbn [first_failure spec_checks].
        rewrite Hmagic, Hpow.
        unfold check_read_version, check_reserved_space, check_fractions,
          check_schema_format, check_text_encoding, check_reserved_bytes.
        split_ifs; discriminate.
      * apply parseHeader_page_size; assumption.
    + intros Hpow. apply parseHeader_bad_page_size; try assumption.
      intros Hnone. apply Hpow, check_page_size_spec, Hnone.
  - intros Hmagic Hsize Hversion Hreserved. rewrite Hfirst.
    cbn [first_failure spec_checks]. rewrite Hmagic, Hsize, Hversion.
    unfold check_reserved_space.
    destruct (hs_ReservedSpace hs =? 0) eqn:Hz; [|reflexivity].
    apply Z.eqb_eq in Hz. contradiction.
  - apply parseHeader_ok. exact Hlen.
Qed.

Lemma parseHeader_checks_in_order_good :
  length good_header = headerSize
  /\ parseHeader good_header = (mkHeader 4096 7 3, None).
Proof.
  split; [reflexivity|].
  pose proof (parseHeader_checks_in_order good_header eq_refl)
    as (Hfirst & _ & _ & _ & Hok).
  destruct (parseHeader good_header) as [h e]. cbn [fst snd] in *.
  assert (e = None) as -> by (rewrite Hfirst; vm_compute; reflexivity).
  rewrite (Hok eq_refl). vm_compute. reflexivity.
Defined.

(** ** Read version and opening a file *)

Lemma make_length (n : Z) : length (make n) = Z.to_nat n.
Proof. unfold make. apply repeat_length. Qed.

(** A read that lies inside the mapping fills the whole buffer. *)
Lemma mmap_ReadAt_inside (data p : list byte) (off : Z) :
  0 <= off ->
  off + Z.of_nat (length p) <= Z.of_nat (length data) ->
  mmap_ReadAt data p off
  = (firstn (length p) (skipn (Z.to_nat off) data), Z.of_nat (length p), None).
Proof.
  intros Hoff Hend. unfold mmap_ReadAt.
  assert ((off <? 0) = false) as -> by (apply Z.ltb_ge; lia).
  assert ((Z.of_nat (length data) <? off) = false) as -> by (apply Z.ltb_ge; lia).
  cbn [orb].
  assert (length (firstn (length p) (skipn (Z.to_nat off) data)) = length p)
    as Hsrc by (rewrite length_firstn, length_skipn; lia).
  rewrite Hsrc, Nat.ltb_irrefl, skipn_all, app_nil_r. reflexivity.
Qed.

(** A read that starts inside the mapping and runs past its end ends in
    [io.EOF], with the bytes that were there and the rest of the buffer
    as it was. *)
Lemma mmap_ReadAt_short (data p : list byte) (off : Z) :
  0 <= off <= Z.of_nat (length data) ->
  Z.of_nat (length data) < off + Z.of_nat (length p) ->
  mmap_ReadAt data p off
  = (skipn (Z.to_nat off) data
       ++ skipn (length data - Z.to_nat off) p,
     Z.of_nat (length data) - off, Some io_EOF).
Proof.
  intros Hoff Hend. unfold mmap_ReadAt.
  assert ((off <? 0) = false) as -> by (apply Z.ltb_ge; lia).
  assert ((Z.of_nat (length data) <? off) = false) as -> by (apply Z.ltb_ge; lia).
  cbn [orb].
  assert (firstn (length p) (skipn (Z.to_nat off) data)
          = skipn (Z.to_nat off) data) as ->
    by (apply firstn_all2; rewrite length_skipn; lia).
  rewrite length_skipn.
  assert ((length data - Z.to_nat off <? length p)%nat = true) as ->
    by (apply Nat.ltb_lt; lia).
  f_equal. f_equal. lia.
Qed.

(** A read that starts outside the mapping is refused. *)
Lemma mmap_ReadAt_outside (data p : list byte) (off : Z) :
  off < 0 \/ Z.of_nat (length data) < off ->
  mmap_ReadAt data p off = (p, 0, Some (mmap_invalid_offset off)).
Proof.
  intros Hoff. unfold mmap_ReadAt.
  assert ((off <? 0) || (Z.of_nat (length data) <? off) = true) as ->;
    [|reflexivity].
  apply orb_true_iff. rewrite !Z.ltb_lt. exact Hoff.
Qed.

Lemma filePager_header_full (fp : filePager) :
  (headerSize <= length (mm fp))%nat ->
  filePager_header fp = (firstn headerSize (mm fp), None).
Proof.
  intros Hlen. unfold filePager_header.
  rewrite mmap_ReadAt_inside by (rewrite ?make_length; lia).
  rewrite make_length, Nat2Z.id. reflexivity.
Qed.

(** ** Resolving the dirty flag *)

Lemma bytes_eqb_eq (x y : list byte) : bytes_eqb x y = true <-> x = y.
Proof.
  revert y. induction x as [|a x IH]; intros [|c y]; simpl;
    try (split; [discriminate | congruence]); [tauto|].
  rewrite andb_true_iff, IH. split.
  - intros [Hb ->]. apply Byte.byte_dec_bl in Hb. congruence.
  - intros [= -> ->]. split; [apply Byte.byte_dec_lb|]; reflexivity.
Qed.

(** The journal test on the bytes of the side file. *)
Lemma validJournal_hot (fs : fileSystem) (file : string) (d : list byte) :
  fs file = FileBytes d ->
  (28 <= length d)%nat ->
  slice d 0 8 = journalMagic ->
  be32 d 8 <> 0 ->
  validJournal fs file = (true, None).
Proof.
  intros Hfile Hlen Hmagic Hcount. unfold validJournal. rewrite Hfile.
  apply Nat.leb_le in Hlen. apply bytes_eqb_eq in Hmagic.
  apply Z.eqb_neq in Hcount. rewrite Hlen, Hmagic, Hcount. reflexivity.
Qed.

Section ResolveDirty.

Context {P : Type} `{pager P}.
Variable fs : fileSystem.

Lemma resolveDirty_clean (db : Database P) :
  d_dirty db = false -> resolveDirty fs db = (None, db).
Proof. intros Hd. unfold resolveDirty. rewrite Hd. reflexivity. Qed.

Lemma resolveDirty_gate (db : Database P) (e : error) :
  d_dirty db = true -> journalGate fs db = Some e ->
  resolveDirty fs db = (Some e, db).
Proof.
  intros Hd Hg. unfold resolveDirty. rewrite Hd, Hg. reflexivity.
Qed.

Lemma resolveDirty_header_error (db : Database P) (buf : list byte) (e : error) :
  d_dirty db = true -> journalGate fs db = None ->
  pager_header (d_l db) = (buf, Some e) ->
  resolveDirty fs db = (Some e, db).
Proof.
  intros Hd Hg Hh. unfold resolveDirty. rewrite Hd, Hg, Hh. reflexivity.
Qed.

Lemma resolveDirty_parse_error (db : Database P) (buf : list byte)
    (h : header) (e : error) :
  d_dirty db = true -> journalGate fs db = None ->
  pager_header (d_l db) = (buf, None) ->
  parseHeader buf = (h, Some e) ->
  resolveDirty fs db = (Some e, db).
Proof.
  intros Hd Hg Hh Hp. unfold resolveDirty. rewrite Hd, Hg, Hh, Hp.
  reflexivity.
Qed.

Lemma resolveDirty_reload (db : Database P) (buf : list byte) (nh : header) :
  d_dirty db = true -> journalGate fs db = None ->
  pager_header (d_l db) = (buf, None) ->
  parseHeader buf = (nh, None) ->
  resolveDirty fs db = (None, reloaded db nh).
Proof.
  intros Hd Hg Hh Hp. unfold resolveDirty, reloaded.
  rewrite Hd, Hg, Hh, Hp. cbn [negb].
  destruct (d_header db) as [h|] eqn:Hhd.
  - destruct (ChangeCounter h =? ChangeCounter nh); cbn [negb];
      unfold set_header, set_dirty, set_objectCache, set_btreeCache;
      cbn [d_journal d_dirty d_l d_header d_btreeCache d_objectCache];
      rewrite ?Hhd;
      destruct (SchemaCookie h =? SchemaCookie nh); reflexivity.
  - rewrite Hhd. reflexivity.
Qed.

(** Whatever [resolveDirty] answers, a clear dirty flag afterwards comes
    with a header. *)
Lemma resolveDirty_header (db db' : Database P) (e : option error) :
  (d_dirty db = false -> d_header db <> None) ->
  resolveDirty fs db = (e, db') ->
  d_dirty db' = false -> d_header db' <> None.
Proof.
  intros Hwf. unfold resolveDirty.
  destruct (d_dirty db) eqn:Hd; cbn [negb].
  - destruct (journalGate fs db); [intros [= <- <-]; congruence|].
    destruct (pager_header (d_l db)) as [buf [e1|]];
      [intros [= <- <-]; congruence|].
    destruct (parseHeader buf) as [nh [e2|]];
      [intros [= <- <-]; congruence|].
    intros [= <- <-] _. cbn. discriminate.
  - intros [= <- <-] _. auto.
Qed.

End ResolveDirty.

Lemma journal_path_nonempty (file : string) :
  String.eqb (file ++ "-journal") "" = false.
Proof. destruct file; reflexivity. Qed.

(** With the file pager a hot journal always closes the gate. *)
Lemma journalGate_filePager (fs : fileSystem) (db : Database filePager) :
  String.eqb (d_journal db) "" = false ->
  journalGate fs db
  = match validJournal fs (d_journal db) with
    | (_, Some e) => Some e
    | (true, None) => Some ErrHotJournal
    | (false, None) => None
    end.
Proof.
  intros Hj. unfold journalGate. rewrite Hj. cbn [negb].
  destruct (validJournal fs (d_journal db)) as [[|] [e|]]; reflexivity.
Qed.

Lemma OpenFile_journal_gate (fs : fileSystem) (file : string)
    (data : list byte) (e : error) :
  fs file = FileBytes data ->
  journalGate fs (mkDatabase (file ++ "-journal") true (mkFilePager file data)
                             None (newBtreeCache CachePages) None) = Some e ->
  snd (OpenFile fs file) = Some e.
Proof.
  intros Hfile Hgate. unfold OpenFile, newFilePager, newDatabase.
  rewrite Hfile. set (d := mkDatabase _ _ _ _ _ _) in *.
  rewrite (resolveDirty_gate fs d e eq_refl Hgate). reflexivity.
Qed.

Lemma OpenFile_parse_error (fs : fileSystem) (file : string)
    (data : list byte) (h : header) (e : error) :
  fs file = FileBytes data ->
  (headerSize <= length data)%nat ->
  validJournal fs (file ++ "-journal") = (false, None) ->
  parseHeader (firstn headerSize data) = (h, Some e) ->
  snd (OpenFile fs file) = Some e.
Proof.
  intros Hfile Hlen Hcold Hparse. unfold OpenFile, newFilePager, newDatabase.
  rewrite Hfile.
  set (d := mkDatabase _ _ _ _ _ _).
  assert (journalGate fs d = None) as Hgate.
  { rewrite journalGate_filePager by apply journal_path_nonempty.
    cbn [d d_journal]. rewrite Hcold. reflexivity. }
  assert (pager_header (d_l d) = (firstn headerSize data, None)) as Hhdr
    by (apply (filePager_header_full (mkFilePager file data)); exact Hlen).
  rewrite (resolveDirty_parse_error fs d _ h e eq_refl Hgate Hhdr Hparse).
  reflexivity.
Qed.

(** C2, amended: for a header with a good magic and page size,
    [parseHeader] lets read version 1 through (its answer is then that of
    the five later checks), answers [ErrWAL] exactly when the read version
    is 2, and answers [ErrIncompatible] for every other read version.
    [OpenFile] on a file that starts with such a header of read version 2
    fails with [ErrWAL] when the journal side file is not hot; when it is
    hot, the journal gate comes first and [OpenFile] fails with
    [ErrHotJournal]. *)
Theorem read_version_gate (b : list byte) (Hlen : length b = headerSize) :
  let hs := fst (binary_Read b) in
  check_magic hs = None -> check_page_size hs = None ->
  (hs_ReadVersion hs = 1 ->
     check_read_version hs = None
     /\ snd (parseHeader b)
        = first_failure [check_reserved_space; check_fractions;
                         check_schema_format; check_text_encoding;
                         check_reserved_bytes] hs)
  /\ (snd (parseHeader b) = Some ErrWAL <-> hs_ReadVersion hs = 2)
  /\ (hs_ReadVersion hs <> 1 -> hs_ReadVersion hs <> 2 ->
      snd (parseHeader b) = Some ErrIncompatible)
  /\ (forall (fs : fileSystem) (file : string) (data : list byte),
        fs file = FileBytes data -> firstn headerSize data = b ->
        hs_ReadVersion hs = 2 ->
        (validJournal fs (file ++ "-journal") = (false, None) ->
         snd (OpenFile fs file) = Some ErrWAL)
        /\ (validJournal fs (file ++ "-journal") = (true, None) ->
            snd (OpenFile fs file) = Some ErrHotJournal)).
Proof.
  intros hs Hmagic Hsize.
  pose proof (parseHeader_first_failure b Hlen) as Hfirst. fold hs in Hfirst.
  cbn [first_failure spec_checks] in Hfirst. rewrite Hmagic, Hsize in Hfirst.
  assert (hs_ReadVersion hs = 2 -> snd (parseHeader b) = Some ErrWAL) as Hwal.
  { intros H2. rewrite Hfirst. unfold check_read_version. rewrite H2.
    reflexivity. }
  split; [|split; [|split]].
  - intros H1. unfold check_read_version in *. rewrite H1 in *.
    split; [reflexivity | exact Hfirst].
  - split; [|exact Hwal]. rewrite Hfirst.
    unfold check_read_version, check_reserved_space, check_fractions,
      check_schema_format, check_text_encoding, check_reserved_bytes.
    destruct (hs_ReadVersion hs =? 1) eqn:H1.
    + split_ifs; discriminate.
    + destruct (hs_ReadVersion hs =? 2) eqn:H2; [|discriminate].
      intros _. apply Z.eqb_eq, H2.
  - intros H1 H2. rewrite Hfirst. unfold check_read_version.
    apply Z.eqb_neq in H1, H2. rewrite H1, H2. reflexivity.
  - intros fs file data Hfile Hb H2. split.
    + intros Hcold.
      assert (headerSize <= length data)%nat as Hdata.
      { rewrite <- Hb, length_firstn in Hlen. lia. }
      apply (OpenFile_parse_error fs file data (fst (parseHeader b)));
        try assumption.
      rewrite Hb. rewrite <- (Hwal H2). apply surjective_pairing.
    + intros Hhot. apply (OpenFile_journal_gate fs file data); [assumption|].
      rewrite journalGate_filePager by apply journal_path_nonempty.
      cbn [d_journal]. rewrite Hhot. reflexivity.
Qed.

Lemma read_version_gate_wal_file :
  length wal_header = headerSize
  /\ fs_wal "wal.sqlite" = FileBytes wal_header
  /\ snd (OpenFile fs_wal "wal.sqlite") = Some ErrWAL.
Proof.
  split; [reflexivity|]. split; [reflexivity|].
  pose proof (read_version_gate wal_header eq_refl eq_refl eq_refl)
    as (_ & _ & _ & Hopen).
  destruct (Hopen fs_wal "wal.sqlite"%string wal_header eq_refl eq_refl eq_refl)
    as [Hcold _].
  apply Hcold. reflexivity.
Defined.

(** A WAL file next to a hot journal: [OpenFile] stops at the journal and
    never reports the WAL mode. *)
Lemma OpenFile_wal_behind_hot_journal :
  check_magic (fst (binary_Read wal_header)) = None
  /\ check_page_size (fst (binary_Read wal_header)) = None
  /\ hs_ReadVersion (fst (binary_Read wal_header)) = 2
  /\ fs_wal_hot "wal.sqlite" = FileBytes wal_header
  /\ snd (OpenFile fs_wal_hot "wal.sqlite") = Some ErrHotJournal
  /\ snd (OpenFile fs_wal_hot "wal.sqlite") <> Some ErrWAL.
Proof.
  assert (snd (OpenFile fs_wal_hot "wal.sqlite") = Some ErrHotJournal) as Hopen
    by (vm_compute; reflexivity).
  do 4 (split; [reflexivity|]). split; [exact Hopen|].
  rewrite Hopen. discriminate.
Qed.

(** C3, amended: when [resolveDirty] runs with the dirty flag set and the
    journal gate open, it reads the header through the pager and parses
    it.  When the header is read and parsed without error, with the new
    header [nh] the page cache is cleared if the change counter differs
    from the cached one, the master cache is dropped if the schema cookie
    differs, the new header is stored and the dirty flag is cleared.  When
    the header cannot be read or parsed, [resolveDirty] returns that error
    and changes nothing: the dirty flag stays set.  With the dirty flag
    clear [resolveDirty] returns no error and leaves the database as it
    is. *)
Theorem resolveDirty_protocol {P : Type} `{pager P} (fs : fileSystem)
    (db : Database P) :
  (d_dirty db = true -> journalGate fs db = None ->
   forall (buf : list byte) (nh : header),
     pager_header (d_l db) = (buf, None) ->
     parseHeader buf = (nh, None) ->
     exists db',
       resolveDirty fs db = (None, db')
       /\ d_header db' = Some nh
       /\ d_dirty db' = false
       /\ d_journal db' = d_journal db
       /\ d_l db' = d_l db
       /\ (forall h, d_header db = Some h ->
            (ChangeCounter h <> ChangeCounter nh ->
             d_btreeCache db' = btreeCache_clear (d_btreeCache db)
             /\ bc_entries (d_btreeCache db') = [])
            /\ (ChangeCounter h = ChangeCounter nh ->
                d_btreeCache db' = d_btreeCache db)
            /\ (SchemaCookie h <> SchemaCookie nh -> d_objectCache db' = None)
            /\ (SchemaCookie h = SchemaCookie nh ->
                d_objectCache db' = d_objectCache db))
       /\ (d_header db = None ->
           d_btreeCache db' = d_btreeCache db
           /\ d_objectCache db' = d_objectCache db))
  /\ (d_dirty db = true -> journalGate fs db = None ->
      forall (buf : list byte) (e : error),
        (pager_header (d_l db) = (buf, Some e)
         \/ pager_header (d_l db) = (buf, None)
            /\ snd (parseHeader buf) = Some e) ->
        resolveDirty fs db = (Some e, db))
  /\ (d_dirty db = false -> resolveDirty fs db = (None, db)).
Proof.
  split; [|split; [|apply resolveDirty_clean]]; cycle 1.
  { intros Hd Hg buf e [Hh | [Hh Hp]].
    - apply (resolveDirty_header_error fs db buf); assumption.
    - apply (resolveDirty_parse_error fs db buf (fst (parseHeader buf)));
        try assumption.
      rewrite <- Hp. apply surjective_pairing. }
  intros Hd Hg buf nh Hh Hp. exists (reloaded db nh).
  split; [apply (resolveDirty_reload fs db buf nh); assumption|].
  unfold reloaded. cbn [d_journal d_dirty d_l d_header d_btreeCache d_objectCache].
  do 4 (split; [reflexivity|]). split.
  - intros h Hhd. rewrite Hhd. split; [|split; [|split]].
    + intros Hne. apply Z.eqb_neq in Hne. rewrite Hne. split; reflexivity.
    + intros Heq. apply Z.eqb_eq in Heq. rewrite Heq. reflexivity.
    + intros Hne. apply Z.eqb_neq in Hne. rewrite Hne. reflexivity.
    + intros Heq. apply Z.eqb_eq in Heq. rewrite Heq. reflexivity.
  - intros Hhd. rewrite Hhd. split; reflexivity.
Qed.

Lemma resolveDirty_protocol_stale :
  d_dirty stale_db = true
  /\ journalGate fs_plain stale_db = None
  /\ resolveDirty fs_plain stale_db
     = (None,
        mkDatabase "db.sqlite-journal" false
                   (mkFilePager "db.sqlite" good_header)
                   (Some (mkHeader 4096 7 3)) (mkBtreeCache CachePages [])
                   (Some (mkObjectCache [hello_master] None))).
Proof.
  split; [reflexivity|]. split; [reflexivity|].
  destruct (resolveDirty_protocol fs_plain stale_db) as [Hdirty _].
  destruct (Hdirty eq_refl eq_refl (firstn headerSize good_header)
                   (mkHeader 4096 7 3) eq_refl eq_refl)
    as (db' & Hrun & Hhdr & Hflag & Hj & Hl & Hold & _).
  rewrite Hrun. f_equal.
  destruct (Hold (mkHeader 4096 6 3) eq_refl) as (Hcc & _ & _ & Hsc).
  destruct Hcc as [Hcc _]; [discriminate|].
  specialize (Hsc eq_refl).
  destruct db' as [j d l0 h bc oc].
  cbn [d_journal d_dirty d_l d_header d_btreeCache d_objectCache] in *.
  subst. reflexivity.
Defined.

(** The stale database over a file in WAL mode: the dirty flag is set and
    no journal blocks, the header is read, and its parse ends in [ErrWAL];
    [resolveDirty] returns that error, the dirty flag is not cleared, the
    old header stays and the page cache keeps its page although the file's
    change counter (7) differs from the cached one (6). *)
Lemma resolveDirty_dirty_stays_on_wal_file :
  d_dirty stale_wal_db = true
  /\ journalGate fs_wal stale_wal_db = None
  /\ pager_header (d_l stale_wal_db) = (firstn headerSize wal_header, None)
  /\ snd (parseHeader (firstn headerSize wal_header)) = Some ErrWAL
  /\ be32 wal_header 24 = 7
  /\ resolveDirty fs_wal stale_wal_db = (Some ErrWAL, stale_wal_db)
  /\ d_dirty (snd (resolveDirty fs_wal stale_wal_db)) <> false
  /\ d_header (snd (resolveDirty fs_wal stale_wal_db))
     = Some (mkHeader 4096 6 3)
  /\ bc_entries (d_btreeCache (snd (resolveDirty fs_wal stale_wal_db)))
     <> [].
Proof.
  assert (resolveDirty fs_wal stale_wal_db = (Some ErrWAL, stale_wal_db))
    as Hrun by (vm_compute; reflexivity).
  rewrite Hrun. cbn [snd].
  do 5 (split; [vm_compute; reflexivity|]).
  split; [reflexivity|]. split; [discriminate|].
  split; [reflexivity | discriminate].
Qed.

(** ** The journal gate *)

(** C4, amended: when the dirty flag is set, the journal path is not
    empty, the journal file is hot (it exists, holds at least 28 bytes,
    starts with the journal magic and has a page count other than zero) and
    the pager reports no reserved lock, [resolveDirty] returns
    [ErrHotJournal] whatever the pager would answer for the header, and
    leaves the cached header, both caches and the dirty flag as they
    were. *)
Theorem hot_journal_gate {P : Type} `{pager P} (fs : fileSystem)
    (db : Database P) (d : list byte) :
  d_dirty db = true ->
  d_journal db <> ""%string ->
  fs (d_journal db) = FileBytes d ->
  (28 <= length d)%nat ->
  slice d 0 8 = journalMagic ->
  be32 d 8 <> 0 ->
  pager_CheckReservedLock (d_l db) = (false, None) ->
  resolveDirty fs db = (Some ErrHotJournal, db).
Proof.
  intros Hd Hj Hfile Hlen Hmagic Hcount Hlock.
  apply resolveDirty_gate; [exact Hd|]. unfold journalGate.
  apply String.eqb_neq in Hj. rewrite Hj. cbn [negb].
  rewrite (validJournal_hot fs _ d Hfile Hlen Hmagic Hcount), Hlock.
  reflexivity.
Qed.

Lemma hot_journal_gate_stale :
  d_dirty stale_db = true
  /\ fs_hot (d_journal stale_db) = FileBytes hot_journal
  /\ resolveDirty fs_hot stale_db = (Some ErrHotJournal, stale_db).
Proof.
  split; [reflexivity|]. split; [reflexivity|].
  apply (hot_journal_gate fs_hot stale_db hot_journal);
    first [reflexivity | discriminate | (vm_compute; lia)].
Defined.

(** With the dirty flag clear, a hot journal goes unnoticed. *)
Lemma hot_journal_unnoticed_when_clean :
  d_journal clean_db <> ""%string
  /\ fs_hot (d_journal clean_db) = FileBytes hot_journal
  /\ (28 <= length hot_journal)%nat
  /\ slice hot_journal 0 8 = journalMagic
  /\ be32 hot_journal 8 <> 0
  /\ pager_CheckReservedLock (d_l clean_db) = (false, None)
  /\ resolveDirty fs_hot clean_db = (None, clean_db)
  /\ fst (resolveDirty fs_hot clean_db) <> Some ErrHotJournal.
Proof.
  split; [discriminate|]. split; [reflexivity|].
  split; [vm_compute; lia|]. split; [reflexivity|].
  split; [vm_compute; discriminate|]. split; [reflexivity|].
  split; [reflexivity | discriminate].
Qed.

(** ** Page requests *)

Lemma wrap64_small (z : Z) : - 2 ^ 63 <= z < 2 ^ 63 -> wrap64 z = z.
Proof. intros Hz. unfold wrap64. rewrite Z.mod_small; lia. Qed.

Lemma filePager_page_offset (fp : filePager) (id ps : Z) :
  1 <= id -> 0 < ps -> (id - 1) * ps < 2 ^ 63 ->
  wrap64 (wrap64 (id - 1) * ps) = (id - 1) * ps.
Proof.
  intros Hid Hps Hoff.
  assert (id - 1 <= (id - 1) * ps) by nia.
  rewrite (wrap64_small (id - 1)) by lia.
  apply wrap64_small. nia.
Qed.

(** What [Database_page] answers over the file pager.  A page number
    below 1 is refused with the invalid-page error, whatever the file
    holds.  For a page number from 1 on and a page size above zero, a
    region [(id-1)*size, id*size) inside the mapping comes back as exactly
    [size] bytes from that offset; for a region that runs past the end of
    the mapping the pager hands on the error of the mapped read with the
    buffer, [io.EOF] when the region starts inside the mapping or at its
    end and the invalid-offset error when it starts beyond.  The offset is
    taken to fit an int64. *)
Theorem page_request (db : Database filePager) (id : Z) :
  (id < 1 ->
   Database_page db id = Some ([], Some (errors_New "invalid page number")))
  /\ (forall h : header,
        1 <= id -> d_header db = Some h -> 0 < PageSize h ->
        let ps := PageSize h in
        let data := mm (d_l db) in
        let off := (id - 1) * ps in
        off < 2 ^ 63 ->
        (off + ps <= Z.of_nat (length data) ->
         Database_page db id
         = Some (firstn (Z.to_nat ps) (skipn (Z.to_nat off) data), None)
         /\ Z.of_nat (length (firstn (Z.to_nat ps) (skipn (Z.to_nat off) data)))
            = ps)
        /\ (Z.of_nat (length data) < off + ps ->
            exists (buf : list byte) (e : error),
              Database_page db id = Some (buf, Some e)
              /\ Z.of_nat (length buf) = ps
              /\ (off <= Z.of_nat (length data) -> e = io_EOF)
              /\ (Z.of_nat (length data) < off ->
                  e = mmap_invalid_offset off))).
Proof.
  split.
  - intros Hid. unfold Database_page.
    apply Z.ltb_lt in Hid. rewrite Hid. reflexivity.
  - intros h Hid Hh Hps ps data off Hoff.
    assert (Database_page db id = Some (filePager_page (d_l db) id ps)) as Hpage.
    { unfold Database_page. apply Z.ltb_ge in Hid. rewrite Hid, Hh.
      reflexivity. }
    rewrite Hpage. unfold filePager_page.
    rewrite (filePager_page_offset (d_l db)) by assumption.
    fold off. fold data. split.
    + intros Hin.
      rewrite mmap_ReadAt_inside by (rewrite ?make_length; nia).
      rewrite make_length. split; [reflexivity|].
      rewrite length_firstn, length_skipn. nia.
    + intros Hout. destruct (Z_le_gt_dec off (Z.of_nat (length data))) as [Hle|Hgt].
      * rewrite mmap_ReadAt_short by (rewrite ?make_length; nia).
        eexists _, io_EOF. split; [reflexivity|].
        split; [|split; [reflexivity | lia]].
        rewrite length_app, !length_skipn, make_length. nia.
      * rewrite mmap_ReadAt_outside by lia.
        eexists _, (mmap_invalid_offset off). split; [reflexivity|].
        split; [|split; [lia | reflexivity]].
        rewrite make_length. lia.
Qed.

(** Why the offset has to fit: page [2^55 + 1] of 512-byte pages is at
    offset [2^64], which an int64 holds as 0, so the request answers with
    the first page. *)
Lemma page_offset_wraps :
  Database_page one_page_db (2 ^ 55 + 1) = Database_page one_page_db 1
  /\ Database_page one_page_db 1 = Some (mm (d_l one_page_db), None).
Proof. split; vm_compute; reflexivity. Qed.

Lemma page_request_first_page :
  d_header one_page_db = Some (mkHeader 512 1 1)
  /\ Z.of_nat (length (mm (d_l one_page_db))) = 512
  /\ Database_page one_page_db 1 = Some (mm (d_l one_page_db), None).
Proof.
  split; [reflexivity|]. split; [reflexivity|].
  destruct (page_request one_page_db 1) as [_ Hpage].
  destruct (Hpage (mkHeader 512 1 1)) as [Hin _];
    [lia | reflexivity | reflexivity | reflexivity |].
  destruct Hin as [Hin _]; [vm_compute; discriminate|].
  rewrite Hin. reflexivity.
Defined.

(** C7: the request for page 2 of a database whose file is a single
    512-byte page, a region past the end of the mapping.  The
    specification calls for the file-truncated error, for which the
    package declares [ErrFileTruncated]; the pager returns the zero buffer
    with [io.EOF], the error of the mapped read. *)
Lemma page_past_the_end_is_EOF :
  Z.of_nat (length (mm (d_l one_page_db))) = 512
  /\ d_header one_page_db = Some (mkHeader 512 1 1)
  /\ Database_page one_page_db 2 = Some (repeat x00 512, Some io_EOF)
  /\ (snd <$> Database_page one_page_db 2) <> Some (Some ErrFileTruncated).
Proof.
  assert (Database_page one_page_db 2 = Some (repeat x00 512, Some io_EOF))
    as Hpage by (vm_compute; reflexivity).
  split; [reflexivity|]. split; [reflexivity|]. split; [exact Hpage|].
  rewrite Hpage. discriminate.
Qed.

(** ** The reserved lock of the file pager *)

Section HotJournal.

Variable fs : fileSystem.
Variable newBtree : list byte -> bool -> result btreePage.
Variable addOverflow :
  Database filePager -> cellPayload -> list byte * option error.
Variable parseRecord : list byte -> Record_ * option error.

Lemma openPage_resolve_error (db : Database filePager) (page : Z) (e : error) :
  resolveDirty fs db = (Some e, db) ->
  openPage fs newBtree db page = Some (Err e, db).
Proof. intros Hr. unfold openPage. rewrite Hr. reflexivity. Qed.

(** C10, amended: [CheckReservedLock] of the file pager answers
    [(false, nil)] for every pager.  So for a database on the file pager
    whose journal is hot, [resolveDirty] fails with [ErrHotJournal]
    whenever the dirty flag is set, and changes nothing, the flag included:
    opening a page, reading [sqlite_master] and scanning a table or an
    index fail the same way, again and again.  [OpenFile] sets the flag, so it fails with
    [ErrHotJournal] and hands back a database that is still dirty.  The
    journal gate of the file pager is never open on a hot journal. *)
Theorem hot_journal_never_tolerated (db : Database filePager) :
  (forall fp : filePager, filePager_CheckReservedLock fp = (false, None))
  /\ (d_journal db <> ""%string ->
      validJournal fs (d_journal db) = (true, None) ->
      journalGate fs db = Some ErrHotJournal
      /\ (d_dirty db = true ->
          resolveDirty fs db = (Some ErrHotJournal, db)
          /\ (forall page : Z,
                openPage fs newBtree db page = Some (Err ErrHotJournal, db))
          /\ master fs newBtree addOverflow parseRecord db
             = Some (([], Some ErrHotJournal), db)
          /\ (forall (A : Type) (t : Table) (cb : TableScanCB A)
                     (h : gmap loc (Database filePager)) (a : A),
                h !! t_db t = Some db ->
                Table_Scan fs newBtree addOverflow parseRecord t cb h a
                = Some (Some ErrHotJournal, a, h))
          /\ (forall (A : Type) (ix : Index) (cb : RecordCB A)
                     (h : gmap loc (Database filePager)) (a : A),
                h !! in_db ix = Some db ->
                Index_Scan fs newBtree addOverflow parseRecord ix cb h a
                = Some (Some ErrHotJournal, a, h))))
  /\ (forall (file : string) (data : list byte),
        fs file = FileBytes data ->
        validJournal fs (file ++ "-journal") = (true, None) ->
        OpenFile fs file
        = (Some (mkDatabase (file ++ "-journal") true (mkFilePager file data)
                            None (newBtreeCache CachePages) None),
           Some ErrHotJournal)).
Proof.
  split; [reflexivity|]. split.
  - intros Hj Hhot.
    assert (journalGate fs db = Some ErrHotJournal) as Hgate.
    { rewrite journalGate_filePager by (apply String.eqb_neq; exact Hj).
      rewrite Hhot. reflexivity. }
    split; [exact Hgate|]. intros Hd.
    pose proof (resolveDirty_gate fs db ErrHotJournal Hd Hgate) as Hr.
    split; [exact Hr|]. split; [|split; [|split]].
    + intros page. apply openPage_resolve_error. exact Hr.
    + unfold master. rewrite Hr. reflexivity.
    + intros A t cb h a Hdb. unfold Table_Scan, openTable. rewrite Hdb.
      rewrite (openPage_resolve_error db _ ErrHotJournal Hr).
      rewrite (insert_id h _ _ Hdb). reflexivity.
    + intros A ix cb h a Hdb. unfold Index_Scan, openIndex. rewrite Hdb.
      rewrite (openPage_resolve_error db _ ErrHotJournal Hr).
      rewrite (insert_id h _ _ Hdb). reflexivity.
  - intros file data Hfile Hhot. unfold OpenFile, newFilePager, newDatabase.
    rewrite Hfile. set (d := mkDatabase _ _ _ _ _ _).
    rewrite (resolveDirty_gate fs d ErrHotJournal eq_refl); [reflexivity|].
    rewrite journalGate_filePager by apply journal_path_nonempty.
    cbn [d d_journal]. rewrite Hhot. reflexivity.
Qed.

End HotJournal.

Lemma hot_journal_never_tolerated_hello :
  fs_hello_hot "hello.sqlite" = FileBytes hello_file
  /\ validJournal fs_hello_hot "hello.sqlite-journal" = (true, None)
  /\ snd (OpenFile fs_hello_hot "hello.sqlite") = Some ErrHotJournal.
Proof.
  split; [reflexivity|]. split; [reflexivity|].
  destruct (hot_journal_never_tolerated fs_hello_hot toy_newBtree
              toy_addOverflow toy_parseRecord hello_db) as (_ & _ & Hopen).
  rewrite (Hopen "hello.sqlite"%string hello_file eq_refl eq_refl).
  reflexivity.
Defined.

(** A database that was read before the journal turned hot and was not
    locked since: the dirty flag is clear, and [sqlite_master] is read
    without a look at the journal. *)
Lemma hot_journal_tolerated_when_clean :
  d_journal clean_db <> ""%string
  /\ validJournal fs_hot (d_journal clean_db) = (true, None)
  /\ resolveDirty fs_hot clean_db = (None, clean_db)
  /\ master fs_hot toy_newBtree toy_addOverflow toy_parseRecord clean_db
     = Some (([hello_master], None), clean_db).
Proof.
  split; [discriminate|]. split; [reflexivity|]. split; reflexivity.
Qed.

(** ** [sqlite_master], its cache, and the handles *)

Section Master.

Context {P : Type} `{pager P}.
Variable fs : fileSystem.
Variable newBtree : list byte -> bool -> result btreePage.
Variable addOverflow : Database P -> cellPayload -> list byte * option error.
Variable parseRecord : list byte -> Record_ * option error.

Lemma resolveDirty_error (db db' : Database P) (e : error) :
  resolveDirty fs db = (Some e, db') -> db' = db /\ d_dirty db = true.
Proof.
  unfold resolveDirty. destruct (d_dirty db); cbn [negb]; [|discriminate].
  destruct (journalGate fs db); [intros [= _ <-]; auto|].
  destruct (pager_header (d_l db)) as [buf [e1|]]; [intros [= _ <-]; auto|].
  destruct (parseHeader buf) as [nh [e2|]]; [intros [= _ <-]; auto|].
  discriminate.
Qed.

Lemma resolveDirty_ok (db db' : Database P) :
  resolveDirty fs db = (None, db') -> d_dirty db' = false.
Proof.
  unfold resolveDirty. destruct (d_dirty db) eqn:Hd; cbn [negb].
  - destruct (journalGate fs db); [discriminate|].
    destruct (pager_header (d_l db)) as [buf [e1|]]; [discriminate|].
    destruct (parseHeader buf) as [nh [e2|]]; [discriminate|].
    intros [= <-]. reflexivity.
  - intros [= <-]. exact Hd.
Qed.

(** With the dirty flag clear, opening a page touches the page cache
    only. *)
Lemma openPage_frame (db db' : Database P) (page : Z) (r : result btreePage) :
  d_dirty db = false ->
  openPage fs newBtree db page = Some (r, db') ->
  db' = set_btreeCache (d_btreeCache db') db.
Proof.
  intros Hd. unfold openPage. rewrite (resolveDirty_clean fs db Hd).
  destruct (btreeCache_get (d_btreeCache db) page) as [[p|] c].
  - intros [= _ <-]. destruct db; reflexivity.
  - destruct (Database_page _ page) as [[buf [e|]]|]; [| |discriminate].
    + intros [= _ <-]. destruct db; reflexivity.
    + destruct (newBtree buf (page =? 1)); intros [= _ <-];
        destruct db; reflexivity.
Qed.

Lemma openTable_frame (db db' : Database P) (page : Z) (r : result tableBtree) :
  d_dirty db = false ->
  openTable fs newBtree db page = Some (r, db') ->
  db' = set_btreeCache (d_btreeCache db') db.
Proof.
  intros Hd. unfold openTable.
  destruct (openPage fs newBtree db page) as [[[[t|i]|e] db1]|] eqn:Hopen;
    [| | |discriminate]; intros [= _ <-];
    apply (openPage_frame db db1 page _ Hd Hopen).
Qed.

Lemma master_cached (db : Database P) (o : objectCache) :
  d_dirty db = false -> d_objectCache db = Some o ->
  master fs newBtree addOverflow parseRecord db
  = Some ((objects o, err o), db).
Proof.
  intros Hd Ho. unfold master.
  rewrite (resolveDirty_clean fs db Hd), Ho. reflexivity.
Qed.

(** C8: [master] keeps its object list and its error.  After a call that
    leaves the cache filled and the dirty flag clear, the cache holds
    exactly the objects and the error that call returned; the next call
    returns the same objects and the same error and changes nothing, and
    it does so whatever the file, the page cache and the decoders are, so
    page 1 is not read again.  The same holds after a lock cycle that
    finds the schema cookie unchanged.  A failed traversal is repeated as
    the same error. *)
Theorem master_memoized (db db' : Database P) (objs : list sqliteMaster)
    (e : option error) :
  master fs newBtree addOverflow parseRecord db = Some ((objs, e), db') ->
  d_objectCache db' <> None ->
  d_dirty db' = false ->
  d_objectCache db' = Some (mkObjectCache objs e)
  /\ master fs newBtree addOverflow parseRecord db' = Some ((objs, e), db')
  /\ (forall (fs' : fileSystem) newBtree' addOverflow' parseRecord'
             (l' : P) (bc : btreeCache),
        let db2 := mkDatabase (d_journal db') false l' (d_header db') bc
                              (d_objectCache db') in
        master fs' newBtree' addOverflow' parseRecord' db2
        = Some ((objs, e), db2))
  /\ (forall (fs' : fileSystem) (buf : list byte) (nh : header),
        let db2 := set_dirty true db' in
        journalGate fs' db2 = None ->
        pager_header (d_l db2) = (buf, None) ->
        parseHeader buf = (nh, None) ->
        (forall h, d_header db' = Some h -> SchemaCookie h = SchemaCookie nh) ->
        fst <$> master fs' newBtree addOverflow parseRecord db2
        = Some (objs, e)).
Proof.
  intros Hrun Hfilled Hclean.
  assert (d_objectCache db' = Some (mkObjectCache objs e)) as Hcache.
  { revert Hrun. unfold master.
    destruct (resolveDirty fs db) as [[e1|] db1] eqn:Hres.
    - intros [= _ _ <-]. apply resolveDirty_error in Hres as [-> Hd]. congruence.
    - destruct (d_objectCache db1) as [o|] eqn:Ho.
      + intros [= <- <- <-]. rewrite Ho. destruct o; reflexivity.
      + pose proof (resolveDirty_ok _ _ Hres) as Hd1.
        destruct (openTable fs newBtree db1 1) as [[[root|e2] db2]|] eqn:Hopen;
          [| |discriminate].
        * destruct (tableBtree_Iter _ _ _ _ _ _ _) as [[[[? ?] ?] ?]|];
            [|discriminate].
          intros [= <- <- <-]. reflexivity.
        * intros [= _ _ <-]. exfalso. apply Hfilled.
          rewrite (openTable_frame _ _ _ _ Hd1 Hopen). exact Ho. }
  split; [exact Hcache|]. split; [|split].
  - rewrite (master_cached db' _ Hclean Hcache). reflexivity.
  - intros fs' newBtree' addOverflow' parseRecord' l' bc db2.
    unfold master. rewrite (resolveDirty_clean fs' db2 eq_refl).
    cbn [db2 d_objectCache]. rewrite Hcache. reflexivity.
  - intros fs' buf nh db2 Hgate Hhdr Hparse Hcookie. unfold master.
    rewrite (resolveDirty_reload fs' db2 buf nh eq_refl Hgate Hhdr Hparse).
    unfold reloaded.
    cbn [db2 set_dirty d_journal d_l d_header d_btreeCache d_objectCache].
    destruct (d_header db') as [h|] eqn:Hh.
    + rewrite (Hcookie h eq_refl), Z.eqb_refl, Hcache. reflexivity.
    + rewrite Hcache. reflexivity.
Qed.

End Master.

Lemma master_memoized_short_row :
  let m := master fs_short_row toy_newBtree toy_addOverflow toy_parseRecord in
  m short_row_db
  = Some (([hello_master], Some ErrInvalidDef), short_row_db_read)
  /\ m short_row_db_read
     = Some (([hello_master], Some ErrInvalidDef), short_row_db_read).
Proof.
  assert (master fs_short_row toy_newBtree toy_addOverflow toy_parseRecord
                 short_row_db
          = Some (([hello_master], Some ErrInvalidDef), short_row_db_read))
    as Hrun by (vm_compute; reflexivity).
  split; [exact Hrun|].
  apply (master_memoized fs_short_row toy_newBtree toy_addOverflow
           toy_parseRecord short_row_db short_row_db_read _ _ Hrun).
  - vm_compute. discriminate.
  - vm_compute. reflexivity.
Defined.

(** ** Handles *)

Lemma find_first_match {A} (f : A -> bool) (l : list A) (o : A) :
  find f l = Some o <-> first_match f l o.
Proof.
  unfold first_match. induction l as [|x l IH]; simpl.
  - split; [discriminate|]. intros (pre & post & Hl & _).
    destruct pre; discriminate.
  - destruct (f x) eqn:Hx.
    + split.
      * intros [= ->]. exists [], l. repeat split; auto.
      * intros ([|y pre] & post & Hl & Ho & Hpre).
        -- injection Hl as -> _. reflexivity.
        -- injection Hl as -> _. inversion Hpre; congruence.
    + rewrite IH. split.
      * intros (pre & post & -> & Ho & Hpre). exists (x :: pre), post.
        repeat split; auto.
      * intros ([|y pre] & post & Hl & Ho & Hpre).
        -- injection Hl as -> _. congruence.
        -- injection Hl as -> ->. exists pre, post.
           inversion Hpre; repeat split; auto.
Qed.

Lemma find_none_iff {A} (f : A -> bool) (l : list A) :
  find f l = None <-> Forall (fun x => f x = false) l.
Proof.
  induction l as [|x l IH]; simpl.
  - split; [constructor | reflexivity].
  - destruct (f x) eqn:Hx.
    + split; [discriminate|]. intros Hall. inversion Hall; congruence.
    + rewrite IH. split; [constructor; assumption|].
      intros Hall. inversion Hall; assumption.
Qed.

Section Handles.

Context {P : Type} `{pager P}.
Variable fs : fileSystem.
Variable newBtree : list byte -> bool -> result btreePage.
Variable addOverflow : Database P -> cellPayload -> list byte * option error.
Variable parseRecord : list byte -> Record_ * option error.

Lemma Database_Table_master_error (p : loc) (nm : string)
    (h : gmap loc (Database P)) (db db' : Database P)
    (objs : list sqliteMaster) (err : error) :
  h !! p = Some db ->
  master fs newBtree addOverflow parseRecord db
  = Some ((objs, Some err), db') ->
  Database_Table fs newBtree addOverflow parseRecord p nm h
  = Some (Err err, <[p := db']> h).
Proof.
  intros Hdb Hmaster. unfold Database_Table. rewrite Hdb, Hmaster.
  reflexivity.
Qed.

Lemma Database_Index_master_error (p : loc) (nm : string)
    (h : gmap loc (Database P)) (db db' : Database P)
    (objs : list sqliteMaster) (err : error) :
  h !! p = Some db ->
  master fs newBtree addOverflow parseRecord db
  = Some ((objs, Some err), db') ->
  Database_Index fs newBtree addOverflow parseRecord p nm h
  = Some (Err err, <[p := db']> h).
Proof.
  intros Hdb Hmaster. unfold Database_Index. rewrite Hdb, Hmaster.
  reflexivity.
Qed.

(** C6, amended: when [master] succeeds, [Table] searches the master
    objects in order and returns the handle with the pointer to the
    database, the root page and the SQL text of the first object of type
    "table" with the given name, or [ErrNoSuchTable] when there is none;
    [Index] does the same over the objects of type "index", with
    [ErrNoSuchIndex].  When [master] fails, both return its error,
    whatever the objects it returns with it. *)
Theorem Table_Index_lookup (p : loc) (nm : string)
    (h : gmap loc (Database P)) (db db' : Database P)
    (objs : list sqliteMaster) (e : option error) :
  h !! p = Some db ->
  master fs newBtree addOverflow parseRecord db = Some ((objs, e), db') ->
  let is_table o := String.eqb (typ o) "table" && String.eqb (name o) nm in
  let is_index o := String.eqb (typ o) "index" && String.eqb (name o) nm in
  let Table := Database_Table fs newBtree addOverflow parseRecord p nm h in
  let Index := Database_Index fs newBtree addOverflow parseRecord p nm h in
  (forall err, e = Some err ->
     Table = Some (Err err, <[p := db']> h)
     /\ Index = Some (Err err, <[p := db']> h))
  /\ (e = None ->
      (forall o, first_match is_table objs o ->
         Table = Some (Ok (mkTable p (rootPage o) (sql o)), <[p := db']> h))
      /\ (Forall (fun o => is_table o = false) objs ->
          Table = Some (Err ErrNoSuchTable, <[p := db']> h))
      /\ (forall o, first_match is_index objs o ->
         Index = Some (Ok (mkIndex p (rootPage o) (sql o)), <[p := db']> h))
      /\ (Forall (fun o => is_index o = false) objs ->
          Index = Some (Err ErrNoSuchIndex, <[p := db']> h))).
Proof.
  intros Hdb Hmaster is_table is_index Table Index.
  subst Table Index. unfold Database_Table, Database_Index.
  rewrite Hdb, Hmaster. split.
  - intros err ->. split; reflexivity.
  - intros ->. split; [|split; [|split]].
    + intros o Ho. apply find_first_match in Ho.
      fold is_table. rewrite Ho. reflexivity.
    + intros Hnone. apply find_none_iff in Hnone.
      fold is_table. rewrite Hnone. reflexivity.
    + intros o Ho. apply find_first_match in Ho.
      fold is_index. rewrite Ho. reflexivity.
    + intros Hnone. apply find_none_iff in Hnone.
      fold is_index. rewrite Hnone. reflexivity.
Qed.

End Handles.

Lemma Table_Index_lookup_hello :
  let h : gmap loc (Database filePager) := {[1%positive := hello_db]} in
  h !! 1%positive = Some hello_db
  /\ fst <$> Database_Table fs_hello toy_newBtree toy_addOverflow
                            toy_parseRecord 1%positive "hello" h
     = Some (Ok (mkTable 1%positive 2 "CREATE TABLE hello (a, b, c)"))
  /\ fst <$> Database_Table fs_hello toy_newBtree toy_addOverflow
                            toy_parseRecord 1%positive "missing" h
     = Some (Err ErrNoSuchTable)
  /\ fst <$> Database_Index fs_hello toy_newBtree toy_addOverflow
                            toy_parseRecord 1%positive
                            "sqlite_autoindex_hello_1" h
     = Some (Ok (mkIndex 1%positive 3 "")).
Proof.
  intros h.
  assert (h !! 1%positive = Some hello_db) as Hdb by apply lookup_singleton_eq.
  split; [exact Hdb|].
  assert (master fs_hello toy_newBtree toy_addOverflow toy_parseRecord hello_db
          = Some (([hello_master;
                    mkMaster "index" "sqlite_autoindex_hello_1" "hello" 3 ""],
                   None), hello_db_read)) as Hmaster
    by (vm_compute; reflexivity).
  split; [|split].
  - destruct (Table_Index_lookup fs_hello toy_newBtree toy_addOverflow
                toy_parseRecord 1%positive "hello" h _ _ _ _ Hdb Hmaster)
      as [_ Hok].
    destruct (Hok eq_refl) as (Hfound & _).
    rewrite (Hfound hello_master); [reflexivity|].
    exists [], [mkMaster "index" "sqlite_autoindex_hello_1" "hello" 3 ""].
    repeat split; constructor.
  - destruct (Table_Index_lookup fs_hello toy_newBtree toy_addOverflow
                toy_parseRecord 1%positive "missing" h _ _ _ _ Hdb Hmaster)
      as [_ Hok].
    destruct (Hok eq_refl) as (_ & Hmissing & _).
    rewrite Hmissing; [reflexivity|]. repeat constructor.
  - destruct (Table_Index_lookup fs_hello toy_newBtree toy_addOverflow
                toy_parseRecord 1%positive "sqlite_autoindex_hello_1" h
                _ _ _ _ Hdb Hmaster) as [_ Hok].
    destruct (Hok eq_refl) as (_ & _ & Hfound & _).
    rewrite (Hfound (mkMaster "index" "sqlite_autoindex_hello_1" "hello" 3 ""));
      [reflexivity|].
    exists [hello_master], []. repeat split; repeat constructor.
Defined.

(** A database whose [sqlite_master] holds the row of table "hello" and
    then a row of four values: [master] returns the object of "hello"
    together with [ErrInvalidDef], and [Table] answers [ErrInvalidDef] for
    "hello", which the objects hold, and for a name they do not hold: no
    handle and no [ErrNoSuchTable].  [Index] does the same. *)
Lemma Table_Index_pass_on_master_error :
  let h : gmap loc (Database filePager) := {[1%positive := short_row_db]} in
  let objs := [hello_master] in
  h !! 1%positive = Some short_row_db
  /\ fst <$> master fs_short_row toy_newBtree toy_addOverflow toy_parseRecord
                    short_row_db
     = Some (objs, Some ErrInvalidDef)
  /\ find (fun o => String.eqb (typ o) "table" && String.eqb (name o) "hello")
          objs = Some hello_master
  /\ fst <$> Database_Table fs_short_row toy_newBtree toy_addOverflow
                            toy_parseRecord 1%positive "hello" h
     = Some (Err ErrInvalidDef)
  /\ fst <$> Database_Table fs_short_row toy_newBtree toy_addOverflow
                            toy_parseRecord 1%positive "missing" h
     = Some (Err ErrInvalidDef)
  /\ fst <$> Database_Index fs_short_row toy_newBtree toy_addOverflow
                            toy_parseRecord 1%positive "missing" h
     = Some (Err ErrInvalidDef).
Proof.
  intros h objs.
  assert (h !! 1%positive = Some short_row_db) as Hdb
    by apply lookup_singleton_eq.
  assert (master fs_short_row toy_newBtree toy_addOverflow toy_parseRecord
                 short_row_db
          = Some ((objs, Some ErrInvalidDef), short_row_db_read)) as Hmaster
    by (vm_compute; reflexivity).
  split; [exact Hdb|]. split; [rewrite Hmaster; reflexivity|].
  split; [reflexivity|].
  rewrite !(Database_Table_master_error fs_short_row toy_newBtree
              toy_addOverflow toy_parseRecord 1%positive _ h _ _ _ _
              Hdb Hmaster).
  rewrite (Database_Index_master_error fs_short_row toy_newBtree
             toy_addOverflow toy_parseRecord 1%positive _ h _ _ _ _
             Hdb Hmaster).
  repeat split.
Qed.

(** ** The rows of [sqlite_master] *)

Lemma well_shaped_spec (e : Record_) (m : sqliteMaster) :
  well_shaped e = Some m <->
  exists ty nm tbl root def,
    e = [VText ty; VText nm; VText tbl; VInt root; VText def]
    /\ m = mkMaster ty nm tbl root def.
Proof.
  split.
  - destruct e as [|[] [|[] [|[] [|[] [|[] [|]]]]]]; try discriminate.
    intros [= <-]. eauto 10.
  - intros (ty & nm & tbl & root & def & -> & ->). reflexivity.
Qed.

Section MasterRows.

Context {P : Type} `{pager P}.
Variable fs : fileSystem.
Variable newBtree : list byte -> bool -> result btreePage.
Variable addOverflow : Database P -> cellPayload -> list byte * option error.
Variable parseRecord : list byte -> Record_ * option error.

(** The callback of [master] on a row that decodes to [e]. *)
Lemma master_cb_decoded (db : Database P) (rowid : Z) (pl : cellPayload)
    (objects : list sqliteMaster) (c : list byte) (e : Record_) :
  addOverflow db pl = (c, None) ->
  parseRecord c = (e, None) ->
  master_cb addOverflow parseRecord db rowid pl objects
  = match well_shaped e with
    | Some m => ((false, None), objects ++ [m])
    | None => ((false, Some ErrInvalidDef), objects)
    end.
Proof.
  intros Hc He. unfold master_cb. rewrite Hc, He.
  destruct e as [|v0 [|v1 [|v2 [|v3 [|v4 [|v5 e]]]]]];
    cbn [length Nat.eqb negb nth]; try reflexivity;
    destruct v0; try reflexivity; destruct v1; try reflexivity;
    destruct v2; try reflexivity; destruct v3; try reflexivity;
    destruct v4; reflexivity.
Qed.

(** A leaf of rows that all decode is read up to the first row that is
    not well shaped. *)
Lemma tableLeaf_Iter_master (db : Database P)
    (cells : list (Z * cellPayload)) (rows : list Record_)
    (objects : list sqliteMaster) :
  Forall2 (fun cell e =>
             exists c, addOverflow db (snd cell) = (c, None)
                       /\ parseRecord c = (e, None)) cells rows ->
  tableLeaf_Iter (master_cb addOverflow parseRecord) cells db objects
  = ((false, snd (read_rows rows objects)), fst (read_rows rows objects)).
Proof.
  intros Hrows. revert objects.
  induction Hrows as [|[rowid pl] e cells rows (c & Hc & He) _ IH];
    intros objects; [reflexivity|].
  cbn [tableLeaf_Iter read_rows snd] in *.
  rewrite (master_cb_decoded db rowid pl objects c e Hc He).
  destruct (well_shaped e); [|reflexivity].
  cbn [halts fst snd orb]. rewrite bool_decide_eq_false_2 by auto.
  apply IH.
Qed.

Lemma tableBtree_Iter_leaf {A} (r : nat) (cells : list (Z * cellPayload))
    (cb : Database P -> Z -> cellPayload -> A -> step A)
    (db : Database P) (a : A) :
  tableBtree_Iter fs newBtree r (tableLeaf cells) cb db a
  = Some (tableLeaf_Iter cb cells db a, db).
Proof. destruct r; reflexivity. Qed.

Lemma read_rows_bad (rows : list Record_) (objects : list sqliteMaster) :
  Exists (fun e => well_shaped e = None) rows ->
  snd (read_rows rows objects) = Some ErrInvalidDef.
Proof.
  intros Hbad. revert objects.
  induction Hbad as [e rows He | e rows _ IH]; intros objects; cbn [read_rows].
  - rewrite He. reflexivity.
  - destruct (well_shaped e); [apply IH | reflexivity].
Qed.

Lemma read_rows_good (rows : list Record_) (objects : list sqliteMaster) :
  Forall (fun e => well_shaped e <> None) rows ->
  snd (read_rows rows objects) = None
  /\ length (fst (read_rows rows objects))
     = (length objects + length rows)%nat.
Proof.
  intros Hgood. revert objects.
  induction Hgood as [|e rows He _ IH]; intros objects; cbn [read_rows].
  - cbn. split; [reflexivity | lia].
  - destruct (well_shaped e); [|congruence].
    destruct (IH (objects ++ [s])) as [-> ->].
    rewrite length_app. cbn. split; [reflexivity | lia].
Qed.

(** C5: [master] opens page 1 as a table and iterates it with a callback
    that, for every visited row that decodes to a record [e], answers
    [ErrInvalidDef] unless [e] is exactly five values, text, text, text,
    integer, text, and otherwise appends the object; an empty fifth value
    is accepted.  [master] returns and caches what the traversal leaves:
    on a leaf of decodable rows, the objects of the rows before the first
    ill-shaped one and [ErrInvalidDef] for that row, or all objects and no
    error. *)
Theorem master_row_shape (db : Database P) :
  (forall rowid pl objects c e,
     addOverflow db pl = (c, None) ->
     parseRecord c = (e, None) ->
     (well_shaped e = None ->
      master_cb addOverflow parseRecord db rowid pl objects
      = ((false, Some ErrInvalidDef), objects))
     /\ (forall m, well_shaped e = Some m ->
         master_cb addOverflow parseRecord db rowid pl objects
         = ((false, None), objects ++ [m])))
  /\ (forall e, well_shaped e <> None <->
       exists ty nm tbl root def,
         e = [VText ty; VText nm; VText tbl; VInt root; VText def])
  /\ (forall ty nm tbl root,
       well_shaped [VText ty; VText nm; VText tbl; VInt root; VText ""]
       = Some (mkMaster ty nm tbl root ""))
  /\ (forall db1 db2 db3 root done err objs,
       resolveDirty fs db = (None, db1) ->
       d_objectCache db1 = None ->
       openTable fs newBtree db1 1 = Some (Ok root, db2) ->
       tableBtree_Iter fs newBtree maxRecursion root
                       (master_cb addOverflow parseRecord) db2 []
       = Some (((done, err), objs), db3) ->
       master fs newBtree addOverflow parseRecord db
       = Some ((objs, err),
               set_objectCache (Some (mkObjectCache objs err)) db3))
  /\ (forall db1 db2 cells rows,
       resolveDirty fs db = (None, db1) ->
       d_objectCache db1 = None ->
       openTable fs newBtree db1 1 = Some (Ok (tableLeaf cells), db2) ->
       Forall2 (fun cell e =>
                  exists c, addOverflow db2 (snd cell) = (c, None)
                            /\ parseRecord c = (e, None)) cells rows ->
       master fs newBtree addOverflow parseRecord db
       = Some (read_rows rows [],
               set_objectCache
                 (Some (mkObjectCache (fst (read_rows rows []))
                                      (snd (read_rows rows [])))) db2)
       /\ (Exists (fun e => well_shaped e = None) rows ->
           snd (read_rows rows []) = Some ErrInvalidDef)
       /\ (Forall (fun e => well_shaped e <> None) rows ->
           snd (read_rows rows []) = None
           /\ length (fst (read_rows rows [])) = length rows)).
Proof.
  split; [|split; [|split; [|split]]].
  - intros rowid pl objects c e Hc He.
    rewrite (master_cb_decoded db rowid pl objects c e Hc He). split.
    + intros ->. reflexivity.
    + intros m ->. reflexivity.
  - intros e. split.
    + destruct (well_shaped e) as [m|] eqn:Hm; [|congruence]. intros _.
      apply well_shaped_spec in Hm as (ty & nm & tbl & root & def & -> & _).
      eauto 10.
    + intros (ty & nm & tbl & root & def & ->). discriminate.
  - reflexivity.
  - intros db1 db2 db3 root done err objs Hres Hcache Hopen Hiter.
    unfold master. rewrite Hres, Hcache, Hopen, Hiter. reflexivity.
  - intros db1 db2 cells rows Hres Hcache Hopen Hrows. split; [|split].
    + unfold master. rewrite Hres, Hcache, Hopen.
      rewrite tableBtree_Iter_leaf.
      rewrite (tableLeaf_Iter_master db2 cells rows [] Hrows).
      destruct (read_rows rows []); reflexivity.
    + apply read_rows_bad.
    + apply read_rows_good.
Qed.

End MasterRows.

Lemma master_row_shape_toy :
  let cb := master_cb toy_addOverflow toy_parseRecord short_row_db in
  well_shaped (fst (toy_parseRecord [x03])) = None
  /\ cb 2 (mkPayload 1 [x03] 0) [hello_master]
     = ((false, Some ErrInvalidDef), [hello_master])
  /\ cb 2 (mkPayload 1 [x04] 0) [hello_master]
     = ((false, Some ErrInvalidDef), [hello_master])
  /\ cb 2 (mkPayload 1 [x02] 0) [hello_master]
     = ((false, None),
        [hello_master;
         mkMaster "index" "sqlite_autoindex_hello_1" "hello" 3 ""]).
Proof.
  intros cb. split; [reflexivity|].
  destruct (master_row_shape fs_short_row toy_newBtree toy_addOverflow
              toy_parseRecord short_row_db) as (Hrow & _).
  split; [|split].
  - destruct (Hrow 2 (mkPayload 1 [x03] 0) [hello_master] _ _ eq_refl eq_refl)
      as [Hbad _].
    apply Hbad. reflexivity.
  - destruct (Hrow 2 (mkPayload 1 [x04] 0) [hello_master] _ _ eq_refl eq_refl)
      as [Hbad _].
    apply Hbad. reflexivity.
  - destruct (Hrow 2 (mkPayload 1 [x02] 0) [hello_master] _ _ eq_refl eq_refl)
      as [_ Hgood].
    apply Hgood. reflexivity.
Defined.

(** ** Scans *)

Section Scans.

Context {P : Type} `{pager P}.
Variable fs : fileSystem.
Variable newBtree : list byte -> bool -> result btreePage.
Variable addOverflow : Database P -> cellPayload -> list byte * option error.
Variable parseRecord : list byte -> Record_ * option error.

(** *** Every traversal returns *)

Lemma resolveDirty_loaded (db db' : Database P) (e : option error) :
  header_loaded db -> resolveDirty fs db = (e, db') -> header_loaded db'.
Proof.
  intros Hwf Hres Hd. exact (resolveDirty_header fs db db' e Hwf Hres Hd).
Qed.

(** Every database starts out with the invariant. *)
Lemma newDatabase_loaded (l : P) (journal : string) :
  header_loaded (fst (newDatabase fs l journal)).
Proof.
  unfold newDatabase. set (d0 := mkDatabase _ _ _ _ _ _).
  destruct (resolveDirty fs d0) as [e d] eqn:Hres. cbn [fst].
  apply (resolveDirty_loaded d0 d e); [|exact Hres].
  intros Hd. discriminate.
Qed.

Lemma Database_RLock_loaded (db : Database P) :
  header_loaded (snd (Database_RLock db)).
Proof. intros Hd. discriminate. Qed.

Lemma openPage_total (db : Database P) (page : Z) :
  header_loaded db ->
  exists r db', openPage fs newBtree db page = Some (r, db') /\ header_loaded db'.
Proof.
  intros Hwf. unfold openPage.
  destruct (resolveDirty fs db) as [[e|] db1] eqn:Hres.
  - eexists _, _. split; [reflexivity|].
    exact (resolveDirty_loaded db db1 _ Hwf Hres).
  - pose proof (resolveDirty_loaded db db1 _ Hwf Hres) as Hwf1.
    pose proof (resolveDirty_ok fs db db1 Hres) as Hd1.
    destruct (btreeCache_get (d_btreeCache db1) page) as [[p|] c].
    + eexists _, _. split; [reflexivity|]. exact Hwf1.
    + unfold Database_page.
      cbn [set_btreeCache d_header d_l d_journal d_dirty].
      destruct (page <? 1).
      * eexists _, _. split; [reflexivity|]. exact Hwf1.
      * destruct (d_header db1) as [h|] eqn:Hh; [|destruct (Hwf1 Hd1 Hh)].
        destruct (pager_page (d_l db1) page (PageSize h)) as [buf [e|]].
        -- eexists _, _. split; [reflexivity|].
           unfold header_loaded. cbn. rewrite Hh. discriminate.
        -- destruct (newBtree buf (page =? 1)); eexists _, _;
             (split; [reflexivity|]); unfold header_loaded; cbn;
             rewrite Hh; discriminate.
Qed.

Lemma openTable_total (db : Database P) (page : Z) :
  header_loaded db ->
  exists r db', openTable fs newBtree db page = Some (r, db') /\ header_loaded db'.
Proof.
  intros Hwf. unfold openTable.
  destruct (openPage_total db page Hwf) as ([[t|i]|e] & db' & -> & Hwf');
    eexists _, _; (split; [reflexivity | exact Hwf']).
Qed.

Lemma openIndex_total (db : Database P) (page : Z) :
  header_loaded db ->
  exists r db', openIndex fs newBtree db page = Some (r, db') /\ header_loaded db'.
Proof.
  intros Hwf. unfold openIndex.
  destruct (openPage_total db page Hwf) as ([[t|i]|e] & db' & -> & Hwf');
    eexists _, _; (split; [reflexivity | exact Hwf']).
Qed.

Lemma tableInterior_Iter_total {A}
    (child : tableBtree -> Database P -> A -> option (step A * Database P))
    (cells : list (Z * Z)) (rightmost : Z) (db : Database P) (a : A) :
  (forall p db a, header_loaded db ->
     exists s db', child p db a = Some (s, db') /\ header_loaded db') ->
  header_loaded db ->
  exists s db',
    tableInterior_Iter fs newBtree child cells rightmost db a = Some (s, db')
    /\ header_loaded db'.
Proof.
  intros Hchild. revert db a.
  induction cells as [|[lchild rowid] cells IH]; intros db a Hwf;
    cbn [tableInterior_Iter].
  - destruct (openTable_total db rightmost Hwf) as ([rp|e] & db1 & -> & Hwf1).
    + apply Hchild, Hwf1.
    + eexists _, _. split; [reflexivity | exact Hwf1].
  - destruct (openTable_total db lchild Hwf) as ([lp|e] & db1 & -> & Hwf1).
    + destruct (Hchild lp db1 a Hwf1) as ([r a1] & db2 & -> & Hwf2).
      destruct (halts r).
      * eexists _, _. split; [reflexivity | exact Hwf2].
      * apply IH, Hwf2.
    + eexists _, _. split; [reflexivity | exact Hwf1].
Qed.

Lemma tableBtree_Iter_total {A} (r : nat) (root : tableBtree)
    (cb : Database P -> Z -> cellPayload -> A -> step A)
    (db : Database P) (a : A) :
  header_loaded db ->
  exists s db',
    tableBtree_Iter fs newBtree r root cb db a = Some (s, db')
    /\ header_loaded db'.
Proof.
  revert root db a. induction r as [|r IH]; intros [cells|cells rightmost] db a Hwf;
    cbn [tableBtree_Iter]; try (eexists _, _; split; [reflexivity | exact Hwf]).
  apply tableInterior_Iter_total; [|exact Hwf].
  intros p db1 a1 Hwf1. apply IH, Hwf1.
Qed.

Lemma indexInterior_Iter_total {A}
    (child : indexBtree -> Database P -> A -> option (step A * Database P))
    (cb : Database P -> cellPayload -> A -> step A)
    (cells : list (Z * cellPayload)) (rightmost : Z) (db : Database P) (a : A) :
  (forall p db a, header_loaded db ->
     exists s db', child p db a = Some (s, db') /\ header_loaded db') ->
  header_loaded db ->
  exists s db',
    indexInterior_Iter fs newBtree child cb cells rightmost db a = Some (s, db')
    /\ header_loaded db'.
Proof.
  intros Hchild. revert db a.
  induction cells as [|[lchild pl] cells IH]; intros db a Hwf;
    cbn [indexInterior_Iter].
  - destruct (openIndex_total db rightmost Hwf) as ([rp|e] & db1 & -> & Hwf1).
    + apply Hchild, Hwf1.
    + eexists _, _. split; [reflexivity | exact Hwf1].
  - destruct (openIndex_total db lchild Hwf) as ([lp|e] & db1 & -> & Hwf1).
    + destruct (Hchild lp db1 a Hwf1) as ([r a1] & db2 & -> & Hwf2).
      destruct (halts r).
      * eexists _, _. split; [reflexivity | exact Hwf2].
      * destruct (cb db2 pl a1) as [r2 a2]. destruct (halts r2).
        -- eexists _, _. split; [reflexivity | exact Hwf2].
        -- apply IH, Hwf2.
    + eexists _, _. split; [reflexivity | exact Hwf1].
Qed.

Lemma indexBtree_Iter_total {A} (r : nat) (root : indexBtree)
    (cb : Database P -> cellPayload -> A -> step A)
    (db : Database P) (a : A) :
  header_loaded db ->
  exists s db',
    indexBtree_Iter fs newBtree r root cb db a = Some (s, db')
    /\ header_loaded db'.
Proof.
  revert root db a. induction r as [|r IH]; intros [cells|cells rightmost] db a Hwf;
    cbn [indexBtree_Iter]; try (eexists _, _; split; [reflexivity | exact Hwf]).
  apply indexInterior_Iter_total; [|exact Hwf].
  intros p db1 a1 Hwf1. apply IH, Hwf1.
Qed.

(** *** A stop ends the traversal *)

Lemma honoured_continue {A} (s : step (list bool * A)) :
  stop_honoured s -> halts (fst s) = false -> quiet (fst (snd s)).
Proof.
  intros [[_ Hq] | [Hs _]] Hhalts; [exact Hq|].
  rewrite Hs in Hhalts. discriminate.
Qed.

Lemma honoured_error {A} (e : error) (a : list bool * A) :
  quiet (fst a) -> stop_honoured ((false, Some e), a).
Proof. intros Hq. left. split; [reflexivity | exact Hq]. Qed.

Lemma honoured_end {A} (a : list bool * A) :
  quiet (fst a) -> stop_honoured ((false, None), a).
Proof. intros Hq. left. split; [reflexivity | exact Hq]. Qed.

Lemma tableLeaf_Iter_honoured {A}
    (cb : Database P -> Z -> cellPayload -> list bool * A -> step (list bool * A))
    (cells : list (Z * cellPayload)) (db : Database P) (a : list bool * A) :
  (forall db rowid pl a, quiet (fst a) -> stop_honoured (cb db rowid pl a)) ->
  quiet (fst a) -> stop_honoured (tableLeaf_Iter cb cells db a).
Proof.
  intros Hcb. revert a.
  induction cells as [|[rowid pl] cells IH]; intros a Hq; cbn [tableLeaf_Iter].
  - apply honoured_end, Hq.
  - pose proof (Hcb db rowid pl a Hq) as Hstep.
    destruct (cb db rowid pl a) as [r a1].
    destruct (halts r) eqn:Hr; [exact Hstep|].
    apply IH. exact (honoured_continue _ Hstep Hr).
Qed.

Lemma tableInterior_Iter_honoured {A}
    (child : tableBtree -> Database P -> list bool * A
             -> option (step (list bool * A) * Database P))
    (cells : list (Z * Z)) (rightmost : Z) (db db' : Database P)
    (a : list bool * A) (s : step (list bool * A)) :
  (forall p db a s db', quiet (fst a) -> child p db a = Some (s, db') ->
     stop_honoured s) ->
  quiet (fst a) ->
  tableInterior_Iter fs newBtree child cells rightmost db a = Some (s, db') ->
  stop_honoured s.
Proof.
  intros Hchild. revert db a.
  induction cells as [|[lchild rowid] cells IH]; intros db a Hq;
    cbn [tableInterior_Iter].
  - destruct (openTable fs newBtree db rightmost) as [[[rp|e] db1]|];
      [|intros [= <- _]; apply honoured_error, Hq | discriminate].
    apply Hchild, Hq.
  - destruct (openTable fs newBtree db lchild) as [[[lp|e] db1]|];
      [|intros [= <- _]; apply honoured_error, Hq | discriminate].
    destruct (child lp db1 a) as [[[r a1] db2]|] eqn:Hrun; [|discriminate].
    pose proof (Hchild lp db1 a _ _ Hq Hrun) as Hstep.
    destruct (halts r) eqn:Hr; [intros [= <- _]; exact Hstep|].
    apply IH. exact (honoured_continue _ Hstep Hr).
Qed.

Lemma tableBtree_Iter_honoured {A} (r : nat) (root : tableBtree)
    (cb : Database P -> Z -> cellPayload -> list bool * A -> step (list bool * A))
    (db db' : Database P) (a : list bool * A) (s : step (list bool * A)) :
  (forall db rowid pl a, quiet (fst a) -> stop_honoured (cb db rowid pl a)) ->
  quiet (fst a) ->
  tableBtree_Iter fs newBtree r root cb db a = Some (s, db') ->
  stop_honoured s.
Proof.
  intros Hcb. revert root db db' a s.
  induction r as [|r IH]; intros [cells|cells rightmost] db db' a s Hq;
    cbn [tableBtree_Iter].
  - intros [= <- _]. apply tableLeaf_Iter_honoured; assumption.
  - intros [= <- _]. apply honoured_error, Hq.
  - intros [= <- _]. apply tableLeaf_Iter_honoured; assumption.
  - apply tableInterior_Iter_honoured; [|exact Hq].
    intros p db1 a1 s1 db2 Hq1. apply IH, Hq1.
Qed.

Lemma indexLeaf_Iter_honoured {A}
    (cb : Database P -> cellPayload -> list bool * A -> step (list bool * A))
    (cells : list cellPayload) (db : Database P) (a : list bool * A) :
  (forall db pl a, quiet (fst a) -> stop_honoured (cb db pl a)) ->
  quiet (fst a) -> stop_honoured (indexLeaf_Iter cb cells db a).
Proof.
  intros Hcb. revert a.
  induction cells as [|pl cells IH]; intros a Hq; cbn [indexLeaf_Iter].
  - apply honoured_end, Hq.
  - pose proof (Hcb db pl a Hq) as Hstep.
    destruct (cb db pl a) as [r a1].
    destruct (halts r) eqn:Hr; [exact Hstep|].
    apply IH. exact (honoured_continue _ Hstep Hr).
Qed.

Lemma indexInterior_Iter_honoured {A}
    (child : indexBtree -> Database P -> list bool * A
             -> option (step (list bool * A) * Database P))
    (cb : Database P -> cellPayload -> list bool * A -> step (list bool * A))
    (cells : list (Z * cellPayload)) (rightmost : Z) (db db' : Database P)
    (a : list bool * A) (s : step (list bool * A)) :
  (forall p db a s db', quiet (fst a) -> child p db a = Some (s, db') ->
     stop_honoured s) ->
  (forall db pl a, quiet (fst a) -> stop_honoured (cb db pl a)) ->
  quiet (fst a) ->
  indexInterior_Iter fs newBtree child cb cells rightmost db a = Some (s, db') ->
  stop_honoured s.
Proof.
  intros Hchild Hcb. revert db a.
  induction cells as [|[lchild pl] cells IH]; intros db a Hq;
    cbn [indexInterior_Iter].
  - destruct (openIndex fs newBtree db rightmost) as [[[rp|e] db1]|];
      [|intros [= <- _]; apply honoured_error, Hq | discriminate].
    apply Hchild, Hq.
  - destruct (openIndex fs newBtree db lchild) as [[[lp|e] db1]|];
      [|intros [= <- _]; apply honoured_error, Hq | discriminate].
    destruct (child lp db1 a) as [[[r a1] db2]|] eqn:Hrun; [|discriminate].
    pose proof (Hchild lp db1 a _ _ Hq Hrun) as Hstep.
    destruct (halts r) eqn:Hr; [intros [= <- _]; exact Hstep|].
    pose proof (honoured_continue _ Hstep Hr) as Hq1. cbn [snd] in Hq1.
    pose proof (Hcb db2 pl a1 Hq1) as Hstep2.
    destruct (cb db2 pl a1) as [r2 a2].
    destruct (halts r2) eqn:Hr2; [intros [= <- _]; exact Hstep2|].
    apply IH. exact (honoured_continue _ Hstep2 Hr2).
Qed.

Lemma indexBtree_Iter_honoured {A} (r : nat) (root : indexBtree)
    (cb : Database P -> cellPayload -> list bool * A -> step (list bool * A))
    (db db' : Database P) (a : list bool * A) (s : step (list bool * A)) :
  (forall db pl a, quiet (fst a) -> stop_honoured (cb db pl a)) ->
  quiet (fst a) ->
  indexBtree_Iter fs newBtree r root cb db a = Some (s, db') ->
  stop_honoured s.
Proof.
  intros Hcb. revert root db db' a s.
  induction r as [|r IH]; intros [cells|cells rightmost] db db' a s Hq;
    cbn [indexBtree_Iter].
  - intros [= <- _]. apply indexLeaf_Iter_honoured; assumption.
  - intros [= <- _]. apply honoured_error, Hq.
  - intros [= <- _]. apply indexLeaf_Iter_honoured; assumption.
  - apply indexInterior_Iter_honoured; [|exact Hcb|exact Hq].
    intros p db1 a1 s1 db2 Hq1. apply IH, Hq1.
Qed.

Lemma quiet_nil : quiet [].
Proof. constructor. Qed.

Lemma quiet_snoc (log : list bool) : quiet log -> quiet (log ++ [false]).
Proof.
  intros Hq. apply Forall_app. split; [exact Hq | repeat constructor].
Qed.

Lemma Table_Scan_cb_honoured {A} (cb : TableScanCB A) (db : Database P)
    (rowid : Z) (pl : cellPayload) (a : list bool * A) :
  quiet (fst a) ->
  stop_honoured
    (Table_Scan_cb addOverflow parseRecord (logged_table cb) db rowid pl a).
Proof.
  intros Hq. unfold Table_Scan_cb, logged_table.
  destruct (addOverflow db pl) as [c [e|]]; [apply honoured_error, Hq|].
  destruct (parseRecord c) as [rec [e|]]; [apply honoured_error, Hq|].
  destruct (cb rowid rec (snd a)) as [[|] a1].
  - right. split; [reflexivity|]. exists (fst a). split; [reflexivity | exact Hq].
  - left. split; [reflexivity | apply quiet_snoc, Hq].
Qed.

Lemma Index_Scan_cb_honoured {A} (cb : RecordCB A) (db : Database P)
    (pl : cellPayload) (a : list bool * A) :
  quiet (fst a) ->
  stop_honoured
    (Index_Scan_cb addOverflow parseRecord (logged_record cb) db pl a).
Proof.
  intros Hq. unfold Index_Scan_cb, logged_record.
  destruct (addOverflow db pl) as [c [e|]]; [apply honoured_error, Hq|].
  destruct (parseRecord c) as [rec [e|]]; [apply honoured_error, Hq|].
  destruct (cb rec (snd a)) as [[|] a1].
  - right. split; [reflexivity|]. exists (fst a). split; [reflexivity | exact Hq].
  - left. split; [reflexivity | apply quiet_snoc, Hq].
Qed.

(** *** The log does not change the run *)

Section Simulation.

Context {A B : Type} (R : A -> B -> Prop).

Lemma tableLeaf_Iter_same
    (cbA : Database P -> Z -> cellPayload -> A -> step A)
    (cbB : Database P -> Z -> cellPayload -> B -> step B)
    (cells : list (Z * cellPayload)) (db : Database P) (a : A) (b : B) :
  (forall db rowid pl a b, R a b ->
     same_step R (cbA db rowid pl a) (cbB db rowid pl b)) ->
  R a b ->
  same_step R (tableLeaf_Iter cbA cells db a) (tableLeaf_Iter cbB cells db b).
Proof.
  intros Hcb. revert a b.
  induction cells as [|[rowid pl] cells IH]; intros a b Hab;
    cbn [tableLeaf_Iter].
  - split; [reflexivity | exact Hab].
  - destruct (Hcb db rowid pl a b Hab) as [Hr Hs].
    destruct (cbA db rowid pl a) as [ra a1], (cbB db rowid pl b) as [rb b1].
    cbn [fst snd] in *. subst rb.
    destruct (halts ra); [split; [reflexivity | exact Hs]|].
    apply IH, Hs.
Qed.

Lemma tableInterior_Iter_same
    (childA : tableBtree -> Database P -> A -> option (step A * Database P))
    (childB : tableBtree -> Database P -> B -> option (step B * Database P))
    (cells : list (Z * Z)) (rightmost : Z) (db : Database P) (a : A) (b : B) :
  (forall p db a b, R a b -> same_run R (childA p db a) (childB p db b)) ->
  R a b ->
  same_run R (tableInterior_Iter fs newBtree childA cells rightmost db a)
             (tableInterior_Iter fs newBtree childB cells rightmost db b).
Proof.
  intros Hchild. revert db a b.
  induction cells as [|[lchild rowid] cells IH]; intros db a b Hab;
    cbn [tableInterior_Iter].
  - destruct (openTable fs newBtree db rightmost) as [[[rp|e] db1]|];
      [apply Hchild, Hab | | exact I].
    split; [split; [reflexivity | exact Hab] | reflexivity].
  - destruct (openTable fs newBtree db lchild) as [[[lp|e] db1]|];
      [| split; [split; [reflexivity | exact Hab] | reflexivity] | exact I].
    pose proof (Hchild lp db1 a b Hab) as Hrun.
    destruct (childA lp db1 a) as [[[ra a1] da]|],
             (childB lp db1 b) as [[[rb b1] db2]|]; try contradiction;
      [|exact I].
    destruct Hrun as [[Hr Hs] ->]. cbn [fst snd] in *. subst rb.
    destruct (halts ra); [split; [split; [reflexivity | exact Hs] | reflexivity]|].
    apply IH, Hs.
Qed.

Lemma tableBtree_Iter_same (r : nat) (root : tableBtree)
    (cbA : Database P -> Z -> cellPayload -> A -> step A)
    (cbB : Database P -> Z -> cellPayload -> B -> step B)
    (db : Database P) (a : A) (b : B) :
  (forall db rowid pl a b, R a b ->
     same_step R (cbA db rowid pl a) (cbB db rowid pl b)) ->
  R a b ->
  same_run R (tableBtree_Iter fs newBtree r root cbA db a)
             (tableBtree_Iter fs newBtree r root cbB db b).
Proof.
  intros Hcb. revert root db a b.
  induction r as [|r IH]; intros [cells|cells rightmost] db a b Hab;
    cbn [tableBtree_Iter same_run].
  - split; [apply tableLeaf_Iter_same; assumption | reflexivity].
  - split; [split; [reflexivity | exact Hab] | reflexivity].
  - split; [apply tableLeaf_Iter_same; assumption | reflexivity].
  - apply tableInterior_Iter_same; [|exact Hab].
    intros p db1 a1 b1 Hab1. apply IH, Hab1.
Qed.

Lemma indexLeaf_Iter_same
    (cbA : Database P -> cellPayload -> A -> step A)
    (cbB : Database P -> cellPayload -> B -> step B)
    (cells : list cellPayload) (db : Database P) (a : A) (b : B) :
  (forall db pl a b, R a b -> same_step R (cbA db pl a) (cbB db pl b)) ->
  R a b ->
  same_step R (indexLeaf_Iter cbA cells db a) (indexLeaf_Iter cbB cells db b).
Proof.
  intros Hcb. revert a b.
  induction cells as [|pl cells IH]; intros a b Hab; cbn [indexLeaf_Iter].
  - split; [reflexivity | exact Hab].
  - destruct (Hcb db pl a b Hab) as [Hr Hs].
    destruct (cbA db pl a) as [ra a1], (cbB db pl b) as [rb b1].
    cbn [fst snd] in *. subst rb.
    destruct (halts ra); [split; [reflexivity | exact Hs]|].
    apply IH, Hs.
Qed.

Lemma indexInterior_Iter_same
    (childA : indexBtree -> Database P -> A -> option (step A * Database P))
    (childB : indexBtree -> Database P -> B -> option (step B * Database P))
    (cbA : Database P -> cellPayload -> A -> step A)
    (cbB : Database P -> cellPayload -> B -> step B)
    (cells : list (Z * cellPayload)) (rightmost : Z) (db : Database P)
    (a : A) (b : B) :
  (forall p db a b, R a b -> same_run R (childA p db a) (childB p db b)) ->
  (forall db pl a b, R a b -> same_step R (cbA db pl a) (cbB db pl b)) ->
  R a b ->
  same_run R (indexInterior_Iter fs newBtree childA cbA cells rightmost db a)
             (indexInterior_Iter fs newBtree childB cbB cells rightmost db b).
Proof.
  intros Hchild Hcb. revert db a b.
  induction cells as [|[lchild pl] cells IH]; intros db a b Hab;
    cbn [indexInterior_Iter].
  - destruct (openIndex fs newBtree db rightmost) as [[[rp|e] db1]|];
      [apply Hchild, Hab | | exact I].
    split; [split; [reflexivity | exact Hab] | reflexivity].
  - destruct (openIndex fs newBtree db lchild) as [[[lp|e] db1]|];
      [| split; [split; [reflexivity | exact Hab] | reflexivity] | exact I].
    pose proof (Hchild lp db1 a b Hab) as Hrun.
    destruct (childA lp db1 a) as [[[ra a1] da]|],
             (childB lp db1 b) as [[[rb b1] db2]|]; try contradiction;
      [|exact I].
    destruct Hrun as [[Hr Hs] ->]. cbn [fst snd] in *. subst rb.
    destruct (halts ra); [split; [split; [reflexivity | exact Hs] | reflexivity]|].
    destruct (Hcb db2 pl a1 b1 Hs) as [Hr2 Hs2].
    destruct (cbA db2 pl a1) as [ra2 a2], (cbB db2 pl b1) as [rb2 b2].
    cbn [fst snd] in *. subst rb2.
    destruct (halts ra2);
      [split; [split; [reflexivity | exact Hs2] | reflexivity]|].
    apply IH, Hs2.
Qed.

Lemma indexBtree_Iter_same (r : nat) (root : indexBtree)
    (cbA : Database P -> cellPayload -> A -> step A)
    (cbB : Database P -> cellPayload -> B -> step B)
    (db : Database P) (a : A) (b : B) :
  (forall db pl a b, R a b -> same_step R (cbA db pl a) (cbB db pl b)) ->
  R a b ->
  same_run R (indexBtree_Iter fs newBtree r root cbA db a)
             (indexBtree_Iter fs newBtree r root cbB db b).
Proof.
  intros Hcb. revert root db a b.
  induction r as [|r IH]; intros [cells|cells rightmost] db a b Hab;
    cbn [indexBtree_Iter same_run].
  - split; [apply indexLeaf_Iter_same; assumption | reflexivity].
  - split; [split; [reflexivity | exact Hab] | reflexivity].
  - split; [apply indexLeaf_Iter_same; assumption | reflexivity].
  - apply indexInterior_Iter_same; [|exact Hcb|exact Hab].
    intros p db1 a1 b1 Hab1. apply IH, Hab1.
Qed.

End Simulation.

Lemma Table_Scan_cb_logged {A} (cb : TableScanCB A) (db : Database P)
    (rowid : Z) (pl : cellPayload) (a : A) (s : list bool * A) :
  unlogged a s ->
  same_step unlogged
    (Table_Scan_cb addOverflow parseRecord cb db rowid pl a)
    (Table_Scan_cb addOverflow parseRecord (logged_table cb) db rowid pl s).
Proof.
  unfold unlogged. intros ->. unfold Table_Scan_cb, logged_table, same_step.
  destruct (addOverflow db pl) as [c [e|]]; [split; reflexivity|].
  destruct (parseRecord c) as [rec [e|]]; [split; reflexivity|].
  destruct (cb rowid rec (snd s)) as [stop a1]. split; reflexivity.
Qed.

Lemma Index_Scan_cb_logged {A} (cb : RecordCB A) (db : Database P)
    (pl : cellPayload) (a : A) (s : list bool * A) :
  unlogged a s ->
  same_step unlogged
    (Index_Scan_cb addOverflow parseRecord cb db pl a)
    (Index_Scan_cb addOverflow parseRecord (logged_record cb) db pl s).
Proof.
  unfold unlogged. intros ->. unfold Index_Scan_cb, logged_record, same_step.
  destruct (addOverflow db pl) as [c [e|]]; [split; reflexivity|].
  destruct (parseRecord c) as [rec [e|]]; [split; reflexivity|].
  destruct (cb rec (snd s)) as [stop a1]. split; reflexivity.
Qed.

Lemma honoured_log {A} (s : step (list bool * A)) :
  stop_honoured s ->
  quiet (fst (snd s))
  \/ (snd (fst s) = None /\ exists l, fst (snd s) = l ++ [true] /\ quiet l).
Proof.
  intros [[_ Hq] | [Hs Hl]]; [left; exact Hq|].
  right. rewrite Hs. split; [reflexivity | exact Hl].
Qed.

(** C9: a table scan and an index scan over a database that has read its
    header return, for every callback.  In the log of the stop flags the
    callback answered during the scan, either no call asked to stop, or
    exactly the last call did; in that case the scan returns without an
    error. *)
Theorem scan_stop_propagation {A : Type} (cbT : TableScanCB A)
    (cbR : RecordCB A) (h : gmap loc (Database P)) (a : A) :
  (forall (t : Table) (db : Database P),
     h !! t_db t = Some db -> header_loaded db ->
     exists err a' h' log,
       Table_Scan fs newBtree addOverflow parseRecord t cbT h a
       = Some (err, a', h')
       /\ Table_Scan fs newBtree addOverflow parseRecord t (logged_table cbT)
                     h ([], a)
          = Some (err, (log, a'), h')
       /\ (quiet log
           \/ (err = None /\ exists l, log = l ++ [true] /\ quiet l)))
  /\ (forall (ix : Index) (db : Database P),
       h !! in_db ix = Some db -> header_loaded db ->
       exists err a' h' log,
         Index_Scan fs newBtree addOverflow parseRecord ix cbR h a
         = Some (err, a', h')
         /\ Index_Scan fs newBtree addOverflow parseRecord ix
                       (logged_record cbR) h ([], a)
            = Some (err, (log, a'), h')
         /\ (quiet log
             \/ (err = None /\ exists l, log = l ++ [true] /\ quiet l))).
Proof.
  split.
  - intros t db Hdb Hwf. unfold Table_Scan. rewrite Hdb.
    destruct (openTable_total db (t_root t) Hwf) as ([root|e] & db1 & -> & Hwf1).
    + destruct (tableBtree_Iter_total maxRecursion root
                  (Table_Scan_cb addOverflow parseRecord cbT) db1 a Hwf1)
        as ([[done err] a1] & db2 & Hrun & _).
      pose proof (tableBtree_Iter_same unlogged maxRecursion root
                    (Table_Scan_cb addOverflow parseRecord cbT)
                    (Table_Scan_cb addOverflow parseRecord (logged_table cbT))
                    db1 a ([], a) (Table_Scan_cb_logged cbT) eq_refl) as Hsame.
      rewrite Hrun in *.
      destruct (tableBtree_Iter _ _ _ _ (Table_Scan_cb _ _ (logged_table cbT)) _ _)
        as [[[[done' err'] [log a2]] db3]|] eqn:Hlog; [|contradiction].
      destruct Hsame as [[Hr Ha] <-]. cbn [fst snd] in Hr, Ha.
      injection Hr as <- <-. unfold unlogged in Ha. cbn [snd] in Ha. subst a2.
      exists err, a1, (<[t_db t := db2]> h), log.
      split; [reflexivity|]. split; [reflexivity|].
      apply (honoured_log ((done, err), (log, a1))).
      exact (tableBtree_Iter_honoured _ _ _ _ _ ([], a) _
               (Table_Scan_cb_honoured cbT) quiet_nil Hlog).
    + exists (Some e), a, (<[t_db t := db1]> h), [].
      split; [reflexivity|]. split; [reflexivity|]. left. constructor.
  - intros ix db Hdb Hwf. unfold Index_Scan. rewrite Hdb.
    destruct (openIndex_total db (in_root ix) Hwf) as ([root|e] & db1 & -> & Hwf1).
    + destruct (indexBtree_Iter_total maxRecursion root
                  (Index_Scan_cb addOverflow parseRecord cbR) db1 a Hwf1)
        as ([[done err] a1] & db2 & Hrun & _).
      pose proof (indexBtree_Iter_same unlogged maxRecursion root
                    (Index_Scan_cb addOverflow parseRecord cbR)
                    (Index_Scan_cb addOverflow parseRecord (logged_record cbR))
                    db1 a ([], a) (Index_Scan_cb_logged cbR) eq_refl) as Hsame.
      rewrite Hrun in *.
      destruct (indexBtree_Iter _ _ _ _ (Index_Scan_cb _ _ (logged_record cbR)) _ _)
        as [[[[done' err'] [log a2]] db3]|] eqn:Hlog; [|contradiction].
      destruct Hsame as [[Hr Ha] <-]. cbn [fst snd] in Hr, Ha.
      injection Hr as <- <-. unfold unlogged in Ha. cbn [snd] in Ha. subst a2.
      exists err, a1, (<[in_db ix := db2]> h), log.
      split; [reflexivity|]. split; [reflexivity|].
      apply (honoured_log ((done, err), (log, a1))).
      exact (indexBtree_Iter_honoured _ _ _ _ _ ([], a) _
               (Index_Scan_cb_honoured cbR) quiet_nil Hlog).
    + exists (Some e), a, (<[in_db ix := db1]> h), [].
      split; [reflexivity|]. split; [reflexivity|]. left. constructor.
Qed.

End Scans.

Lemma scan_stop_propagation_hello :
  let h : gmap loc (Database filePager) := {[1%positive := hello_db]} in
  let t := mkTable 1%positive 2 "CREATE TABLE hello (a, b, c)" in
  let cb : TableScanCB (list Z) :=
    fun rowid rec seen => (rowid =? 2, seen ++ [rowid]) in
  h !! t_db t = Some hello_db
  /\ header_loaded hello_db
  /\ fst <$> Table_Scan fs_hello toy_newBtree toy_addOverflow toy_parseRecord
                        t (logged_table cb) h ([], [])
     = Some (None, ([false; true], [1; 2]))
  /\ exists err seen h' log,
       Table_Scan fs_hello toy_newBtree toy_addOverflow toy_parseRecord
                  t cb h []
       = Some (err, seen, h')
       /\ Table_Scan fs_hello toy_newBtree toy_addOverflow toy_parseRecord
                     t (logged_table cb) h ([], [])
          = Some (err, (log, seen), h')
       /\ (quiet log \/ (err = None /\ exists l, log = l ++ [true] /\ quiet l)).
Proof.
  intros h t cb.
  assert (h !! t_db t = Some hello_db) as Hdb by apply lookup_singleton_eq.
  assert (header_loaded hello_db) as Hwf by (intros _; vm_compute; discriminate).
  split; [exact Hdb|]. split; [exact Hwf|].
  split; [vm_compute; reflexivity|].
  destruct (scan_stop_propagation fs_hello toy_newBtree toy_addOverflow
              toy_parseRecord cb (fun rec seen => (false, seen)) h [])
    as [Htable _].
  exact (Htable t hello_db Hdb Hwf).
Defined.

(** * Further properties of the code *)

(** ** What the header parser does not read *)

Lemma nth_insert_ne {A} (l : list A) (i j : nat) (x d : A) :
  i <> j -> nth j (<[i := x]> l) d = nth j l d.
Proof.
  intros Hne. rewrite !nth_lookup, list_lookup_insert_ne by exact Hne.
  reflexivity.
Qed.

Lemma u8_insert_ne (b : list byte) (i j : nat) (x : byte) :
  i <> j -> u8 (<[i := x]> b) j = u8 b j.
Proof. intros Hne. unfold u8. rewrite nth_insert_ne by exact Hne. reflexivity. Qed.

Lemma slice_insert_after (b : list byte) (i from len : nat) (x : byte) :
  (from + len <= i)%nat -> slice (<[i := x]> b) from len = slice b from len.
Proof.
  intros Hi. unfold slice.
  rewrite drop_insert_ge by lia. apply take_insert_ge. lia.
Qed.

Lemma slice_insert_before (b : list byte) (i from len : nat) (x : byte) :
  (i < from)%nat -> slice (<[i := x]> b) from len = slice b from len.
Proof. intros Hi. unfold slice. rewrite drop_insert_lt by lia. reflexivity. Qed.

Lemma unnamed_offset_spec (i : nat) :
  unnamed_offset i = true <->
  (i = 18 \/ 28 <= i < 40 \/ 48 <= i < 56 \/ 60 <= i < 72 \/ 92 <= i < 100)%nat.
Proof.
  unfold unnamed_offset.
  rewrite !orb_true_iff, !andb_true_iff, Nat.eqb_eq, !Nat.leb_le, !Nat.ltb_lt.
  tauto.
Qed.

Lemma binary_Read_insert_unnamed (b : list byte) (i : nat) (x : byte) :
  unnamed_offset i = true -> binary_Read (<[i := x]> b) = binary_Read b.
Proof.
  intros Hi. apply unnamed_offset_spec in Hi.
  unfold binary_Read, be16, be32. rewrite length_insert.
  cbn [Nat.add].
  rewrite !u8_insert_ne by lia.
  rewrite (slice_insert_after b i 0 16) by lia.
  assert (slice (<[i := x]> b) 72 20 = slice b 72 20) as ->; [|reflexivity].
  destruct (Nat.lt_ge_cases i 72) as [Hlt|Hge].
  - apply slice_insert_before. exact Hlt.
  - apply slice_insert_after. lia.
Qed.

(** [parseHeader] reads the header into a struct whose write version,
    database size, free-list, cache-size, vacuum, user-version and version
    fields are blank ([_]): whatever byte is stored at such an offset, the
    header and the error that come back are the same.  So a file with write
    version 2 and read version 1 is accepted like any other. *)
Theorem parseHeader_ignores_unnamed (b : list byte) (i : nat) (x : byte) :
  unnamed_offset i = true ->
  parseHeader (<[i := x]> b) = parseHeader b.
Proof.
  intros Hi. unfold parseHeader.
  rewrite (binary_Read_insert_unnamed b i x Hi). reflexivity.
Qed.

Lemma parseHeader_ignores_unnamed_write_version :
  unnamed_offset 18 = true
  /\ nth 18 (<[18%nat := x02]> good_header) x00 = x02
  /\ parseHeader (<[18%nat := x02]> good_header) = (mkHeader 4096 7 3, None).
Proof.
  split; [reflexivity|]. split; [reflexivity|].
  rewrite (parseHeader_ignores_unnamed good_header 18 x02 eq_refl).
  vm_compute. reflexivity.
Defined.

(** ** Opening, failing and locking *)

Lemma parseHeader_success (b : list byte) (h : header) :
  parseHeader b = (h, None) ->
  exists k, 9 <= k <= 16 /\ PageSize h = 2 ^ k.
Proof.
  unfold parseHeader. destruct (binary_Read b) as [hs [e|]]; [discriminate|].
  destruct (negb (bytes_eqb (hs_Magic hs) headerMagic)); [discriminate|].
  cbv zeta. set (s := if hs_PageSize hs =? 1 then Z.shiftl 1 16 else hs_PageSize hs).
  rewrite page_size_test.
  destruct (pow2_in_range s) eqn:Hs; cbn [negb]; [|discriminate].
  apply pow2_in_range_spec in Hs. intros Hrun.
  assert (PageSize h = s) as ->; [|exact Hs].
  revert Hrun. split_ifs; intros [= <-]; reflexivity.
Qed.

Section Opening.

Context {P : Type} `{pager P}.
Variable fs : fileSystem.
Variable newBtree : list byte -> bool -> result btreePage.
Variable addOverflow : Database P -> cellPayload -> list byte * option error.
Variable parseRecord : list byte -> Record_ * option error.

(** [newDatabase] hands back a database in either case.  Without an error
    the database is clean and holds the header parsed from the pager's 100
    bytes, whose page size is a power of two from 512 to 65536; with an
    error it is still dirty and has no header.  Both caches start empty. *)
Theorem newDatabase_outcome (l : P) (journal : string) (d : Database P)
    (err : option error) :
  newDatabase fs l journal = (d, err) ->
  d_journal d = journal /\ d_l d = l
  /\ d_btreeCache d = newBtreeCache CachePages /\ d_objectCache d = None
  /\ (err = None ->
      d_dirty d = false
      /\ exists buf h k,
           pager_header l = (buf, None) /\ parseHeader buf = (h, None)
           /\ d_header d = Some h /\ 9 <= k <= 16 /\ PageSize h = 2 ^ k)
  /\ (err <> None -> d_dirty d = true /\ d_header d = None).
Proof.
  unfold newDatabase, resolveDirty. cbn [d_dirty negb d_l d_header].
  destruct (journalGate fs _) as [e|];
    [intros [= <- <-]; repeat split; congruence|].
  destruct (pager_header l) as [buf [e|]] eqn:Hbuf;
    [intros [= <- <-]; repeat split; congruence|].
  destruct (parseHeader buf) as [h [e|]] eqn:Hparse;
    [intros [= <- <-]; repeat split; congruence|].
  intros [= <- <-]. cbn. do 4 (split; [reflexivity|]). split; [|congruence].
  intros _. split; [reflexivity|].
  destruct (parseHeader_success buf h Hparse) as (k & Hk & Hsize).
  exists buf, h, k. auto.
Qed.

(** A call of [resolveDirty] that fails changes nothing, the dirty flag
    included, so the failure is there again at the next call: opening a
    page, reading [sqlite_master], listing the tables and looking one up
    all answer with the same error and leave the database as it is. *)
Theorem resolveDirty_error_sticks (db db' : Database P) (e : error) :
  resolveDirty fs db = (Some e, db') ->
  db' = db
  /\ (forall page, openPage fs newBtree db page = Some (Err e, db))
  /\ (forall page, openTable fs newBtree db page = Some (Err e, db))
  /\ (forall page, openIndex fs newBtree db page = Some (Err e, db))
  /\ master fs newBtree addOverflow parseRecord db = Some (([], Some e), db)
  /\ Database_Tables fs newBtree addOverflow parseRecord db
     = Some (([], Some e), db)
  /\ Database_Indexes fs newBtree addOverflow parseRecord db
     = Some (([], Some e), db)
  /\ (forall (p : loc) (nm : string) (h : gmap loc (Database P)),
        h !! p = Some db ->
        Database_Table fs newBtree addOverflow parseRecord p nm h
        = Some (Err e, h)
        /\ Database_Index fs newBtree addOverflow parseRecord p nm h
           = Some (Err e, h)).
Proof.
  intros Hres. destruct (resolveDirty_error fs db db' e Hres) as [-> _].
  assert (forall page, openPage fs newBtree db page = Some (Err e, db)) as Hpage
    by (intros page; unfold openPage; rewrite Hres; reflexivity).
  assert (master fs newBtree addOverflow parseRecord db
          = Some (([], Some e), db)) as Hmaster
    by (unfold master; rewrite Hres; reflexivity).
  split; [reflexivity|]. split; [exact Hpage|]. split; [|split; [|split]].
  - intros page. unfold openTable. rewrite Hpage. reflexivity.
  - intros page. unfold openIndex. rewrite Hpage. reflexivity.
  - exact Hmaster.
  - split; [|split].
    + unfold Database_Tables, objectNames. rewrite Hmaster. reflexivity.
    + unfold Database_Indexes, objectNames. rewrite Hmaster. reflexivity.
    + intros p nm h Hdb. unfold Database_Table, Database_Index.
      rewrite Hdb, Hmaster, (insert_id h _ _ Hdb). split; reflexivity.
Qed.

(** [master] caches what the traversal of page 1 leaves, but not a failure
    to open page 1: it returns that error with no objects and the object
    cache stays empty, so the next call tries the page again. *)
Theorem master_open_error_not_cached (db db1 db2 : Database P) (e : error) :
  resolveDirty fs db = (None, db1) ->
  d_objectCache db1 = None ->
  openTable fs newBtree db1 1 = Some (Err e, db2) ->
  master fs newBtree addOverflow parseRecord db = Some (([], Some e), db2)
  /\ d_objectCache db2 = None
  /\ master fs newBtree addOverflow parseRecord db2
     = match openTable fs newBtree db2 1 with
       | None => None
       | Some (Err err, db3) => Some (([], Some err), db3)
       | Some (Ok root, db3) =>
           match tableBtree_Iter fs newBtree maxRecursion root
                   (master_cb addOverflow parseRecord) db3 [] with
           | None => None
           | Some (((_, err), objs), db4) =>
               Some ((objs, err),
                     set_objectCache (Some (mkObjectCache objs err)) db4)
           end
       end.
Proof.
  intros Hres Hcache Hopen.
  pose proof (resolveDirty_ok fs db db1 Hres) as Hd1.
  pose proof (openTable_frame fs newBtree db1 db2 1 _ Hd1 Hopen) as Hframe.
  assert (d_objectCache db2 = None) as Hcache2
    by (rewrite Hframe; exact Hcache).
  assert (d_dirty db2 = false) as Hd2 by (rewrite Hframe; exact Hd1).
  split; [|split; [exact Hcache2|]].
  - unfold master. rewrite Hres, Hcache, Hopen. reflexivity.
  - unfold master. rewrite (resolveDirty_clean fs db2 Hd2), Hcache2.
    reflexivity.
Qed.

(** After a read lock the header is read again, and when its schema cookie
    differs from the cached header's, [master] does not use the cached
    objects: whatever the object cache held, the answer is that of a
    database that has no cached objects. *)
Theorem master_after_cookie_change (db : Database P) (h nh : header)
    (buf : list byte) :
  d_header db = Some h ->
  journalGate fs db = None ->
  pager_header (d_l db) = (buf, None) ->
  parseHeader buf = (nh, None) ->
  SchemaCookie h <> SchemaCookie nh ->
  let locked := snd (Database_RLock db) in
  d_dirty locked = true
  /\ d_objectCache (reloaded locked nh) = None
  /\ forall oc,
       master fs newBtree addOverflow parseRecord (set_objectCache oc locked)
       = master fs newBtree addOverflow parseRecord (reloaded locked nh).
Proof.
  intros Hh Hgate Hbuf Hparse Hcookie locked.
  apply Z.eqb_neq in Hcookie.
  split; [reflexivity|]. split.
  - unfold reloaded. cbn. rewrite Hh, Hcookie. reflexivity.
  - intros oc.
    assert (reloaded (set_objectCache oc locked) nh = reloaded locked nh) as Hsame.
    { unfold reloaded. cbn. rewrite Hh, Hcookie. reflexivity. }
    unfold master at 1.
    rewrite (resolveDirty_reload fs (set_objectCache oc locked) buf nh
               eq_refl Hgate Hbuf Hparse), Hsame.
    unfold master.
    rewrite (resolveDirty_clean fs (reloaded locked nh) eq_refl).
    reflexivity.
Qed.

End Opening.

Lemma newDatabase_outcome_hello :
  newDatabase fs_hello (mkFilePager "hello.sqlite" hello_file)
              "hello.sqlite-journal" = (hello_db, None)
  /\ d_dirty hello_db = false
  /\ d_header hello_db = Some (mkHeader 512 1 1).
Proof.
  assert (newDatabase fs_hello (mkFilePager "hello.sqlite" hello_file)
                      "hello.sqlite-journal" = (hello_db, None)) as Hnew
    by (vm_compute; reflexivity).
  split; [exact Hnew|].
  destruct (newDatabase_outcome fs_hello _ _ _ _ Hnew)
    as (_ & _ & _ & _ & Hok & _).
  destruct (Hok eq_refl) as [Hclean _].
  split; [exact Hclean | vm_compute; reflexivity].
Defined.

Lemma resolveDirty_error_sticks_wal :
  resolveDirty fs_wal wal_db = (Some ErrWAL, wal_db)
  /\ master fs_wal toy_newBtree toy_addOverflow toy_parseRecord wal_db
     = Some (([], Some ErrWAL), wal_db)
  /\ openPage fs_wal toy_newBtree wal_db 1 = Some (Err ErrWAL, wal_db).
Proof.
  assert (resolveDirty fs_wal wal_db = (Some ErrWAL, wal_db)) as Hres
    by (vm_compute; reflexivity).
  split; [exact Hres|].
  destruct (resolveDirty_error_sticks fs_wal toy_newBtree toy_addOverflow
              toy_parseRecord wal_db wal_db ErrWAL Hres)
    as (_ & Hpage & _ & _ & Hmaster & _).
  split; [exact Hmaster | apply Hpage].
Defined.

Lemma master_open_error_not_cached_index_first :
  let e := errors_New "found an index, expected a table" in
  openTable fs_index_first toy_newBtree index_first_db 1
  = Some (Err e, index_first_db_opened)
  /\ master fs_index_first toy_newBtree toy_addOverflow toy_parseRecord
            index_first_db
     = Some (([], Some e), index_first_db_opened)
  /\ d_objectCache index_first_db_opened = None.
Proof.
  intros e.
  assert (openTable fs_index_first toy_newBtree index_first_db 1
          = Some (Err e, index_first_db_opened)) as Hopen
    by (vm_compute; reflexivity).
  split; [exact Hopen|].
  destruct (master_open_error_not_cached fs_index_first toy_newBtree
              toy_addOverflow toy_parseRecord index_first_db index_first_db
              index_first_db_opened e eq_refl eq_refl Hopen)
    as (Hmaster & Hcache & _).
  split; [exact Hmaster | exact Hcache].
Defined.

Lemma master_after_cookie_change_outdated :
  let locked := snd (Database_RLock outdated_schema_db) in
  d_objectCache locked = Some (mkObjectCache [hello_master] None)
  /\ SchemaCookie (mkHeader 4096 7 2) <> SchemaCookie (mkHeader 4096 7 3)
  /\ master fs_plain toy_newBtree toy_addOverflow toy_parseRecord locked
     = master fs_plain toy_newBtree toy_addOverflow toy_parseRecord
              (reloaded locked (mkHeader 4096 7 3))
  /\ fst <$> master fs_plain toy_newBtree toy_addOverflow toy_parseRecord locked
     = Some ([], Some io_EOF).
Proof.
  intros locked. split; [reflexivity|]. split; [discriminate|].
  split; [|vm_compute; reflexivity].
  assert (pager_header (d_l outdated_schema_db)
          = (firstn headerSize good_header, None)) as Hbuf
    by (vm_compute; reflexivity).
  assert (parseHeader (firstn headerSize good_header)
          = (mkHeader 4096 7 3, None)) as Hparse
    by (vm_compute; reflexivity).
  destruct (master_after_cookie_change fs_plain toy_newBtree toy_addOverflow
              toy_parseRecord outdated_schema_db (mkHeader 4096 7 2)
              (mkHeader 4096 7 3) (firstn headerSize good_header)
              eq_refl eq_refl Hbuf Hparse) as (_ & _ & Hfresh);
    [discriminate|].
  exact (Hfresh (Some (mkObjectCache [hello_master] None))).
Defined.

(** ** Tables, indexes and the pages behind them *)

Section Kinds.

Context {P : Type} `{pager P}.
Variable fs : fileSystem.
Variable newBtree : list byte -> bool -> result btreePage.
Variable addOverflow : Database P -> cellPayload -> list byte * option error.
Variable parseRecord : list byte -> Record_ * option error.

Lemma openIndex_Ok_openTable (db db' : Database P) (page : Z) (i : indexBtree) :
  openIndex fs newBtree db page = Some (Ok i, db') ->
  openTable fs newBtree db page
  = Some (Err (errors_New "found an index, expected a table"), db').
Proof.
  unfold openTable, openIndex.
  destruct (openPage fs newBtree db page) as [[[[t|i']|e] db1]|];
    intros [= _ <-] || intros [=]. reflexivity.
Qed.

(** A page opens as a table or as an index, never as both: from the same
    database, when [openTable] succeeds [openIndex] answers "found a table,
    expected an index", when [openIndex] succeeds [openTable] answers
    "found an index, expected a table", an error of [openPage] comes back
    from both, and both leave the same database behind. *)
Theorem openTable_openIndex_exclusive (db : Database P) (page : Z) :
  (forall t db', openTable fs newBtree db page = Some (Ok t, db') ->
     openIndex fs newBtree db page
     = Some (Err (errors_New "found a table, expected an index"), db'))
  /\ (forall i db', openIndex fs newBtree db page = Some (Ok i, db') ->
      openTable fs newBtree db page
      = Some (Err (errors_New "found an index, expected a table"), db'))
  /\ (forall e db', openPage fs newBtree db page = Some (Err e, db') ->
      openTable fs newBtree db page = Some (Err e, db')
      /\ openIndex fs newBtree db page = Some (Err e, db'))
  /\ snd <$> openTable fs newBtree db page = snd <$> openIndex fs newBtree db page.
Proof.
  unfold openTable, openIndex.
  destruct (openPage fs newBtree db page) as [[[[t|i]|e] db1]|].
  - split; [|split; [|split]]; [| | |reflexivity].
    + intros t' db' [= _ <-]. reflexivity.
    + intros i' db' [=].
    + intros e db' [=].
  - split; [|split; [|split]]; [| | |reflexivity].
    + intros t' db' [=].
    + intros i' db' [= _ <-]. reflexivity.
    + intros e db' [=].
  - split; [|split; [|split]]; [| | |reflexivity].
    + intros t' db' [=].
    + intros i' db' [=].
    + intros e' db' [= <- <-]. split; reflexivity.
  - split; [|split; [|split]]; [| | |reflexivity]; intros ? ? [=].
Qed.

(** [withoutRowid] tells which scan a table handle supports.  When it
    answers true, [Scan] fails with "found an index, expected a table";
    when it answers false, [WithoutRowidScan] fails.  In both cases the
    callback is not called (its state comes back as it was), and the
    database is left as [withoutRowid] left it. *)
Theorem withoutRowid_decides_scan {A : Type} (t : Table)
    (h : gmap loc (Database P)) (cbT : TableScanCB A) (cbR : RecordCB A)
    (a : A) :
  (forall h', Table_withoutRowid fs newBtree t h = Some (true, h') ->
     Table_Scan fs newBtree addOverflow parseRecord t cbT h a
     = Some (Some (errors_New "found an index, expected a table"), a, h'))
  /\ (forall h', Table_withoutRowid fs newBtree t h = Some (false, h') ->
      exists e,
        Table_WithoutRowidScan fs newBtree addOverflow parseRecord t cbR h a
        = Some (Some e, a, h')).
Proof.
  unfold Table_withoutRowid, Table_Scan, Table_WithoutRowidScan.
  destruct (h !! t_db t) as [db|]; [|split; intros ? [=]].
  pose proof (fun db' i => openIndex_Ok_openTable db db' (t_root t) i)
    as Hindex.
  destruct (openIndex fs newBtree db (t_root t)) as [[[i|e] db1]|];
    split; intros h' [= <-].
  - rewrite (Hindex db1 i eq_refl). reflexivity.
  - exists e. reflexivity.
Qed.

End Kinds.

Lemma withoutRowid_decides_scan_hello :
  let h : gmap loc (Database filePager) := {[1%positive := hello_db]} in
  let by_index := mkTable 1%positive 3 "" in
  let by_table := mkTable 1%positive 2 "CREATE TABLE hello (a, b, c)" in
  let cbT : TableScanCB nat := fun _ _ n => (false, S n) in
  let cbR : RecordCB nat := fun _ n => (false, S n) in
  fst <$> Table_withoutRowid fs_hello toy_newBtree by_index h = Some true
  /\ fst <$> Table_withoutRowid fs_hello toy_newBtree by_table h = Some false
  /\ fst <$> Table_Scan fs_hello toy_newBtree toy_addOverflow toy_parseRecord
                        by_index cbT h 0%nat
     = Some (Some (errors_New "found an index, expected a table"), 0%nat)
  /\ fst <$> Table_WithoutRowidScan fs_hello toy_newBtree toy_addOverflow
                                    toy_parseRecord by_table cbR h 0%nat
     = Some (Some (errors_New "found a table, expected an index"), 0%nat).
Proof.
  intros h by_index by_table cbT cbR.
  split; [vm_compute; reflexivity|]. split; [vm_compute; reflexivity|].
  split.
  - destruct (withoutRowid_decides_scan fs_hello toy_newBtree toy_addOverflow
                toy_parseRecord by_index h cbT cbR 0%nat) as [Htrue _].
    destruct (Table_withoutRowid fs_hello toy_newBtree by_index h)
      as [[[|] h']|] eqn:Hkind; try (vm_compute in Hkind; discriminate).
    rewrite (Htrue h' eq_refl). reflexivity.
  - destruct (withoutRowid_decides_scan fs_hello toy_newBtree toy_addOverflow
                toy_parseRecord by_table h cbT cbR 0%nat) as [_ Hfalse].
    destruct (Table_withoutRowid fs_hello toy_newBtree by_table h)
      as [[[|] h']|] eqn:Hkind; try (vm_compute in Hkind; discriminate).
    destruct (Hfalse h' eq_refl) as [e He].
    vm_compute. reflexivity.
Defined.

Section Names.

Context {P : Type} `{pager P}.
Variable fs : fileSystem.
Variable newBtree : list byte -> bool -> result btreePage.
Variable addOverflow : Database P -> cellPayload -> list byte * option error.
Variable parseRecord : list byte -> Record_ * option error.

Lemma find_some_iff {A} (f : A -> bool) (l : list A) :
  (exists x, find f l = Some x) <-> (exists x, In x l /\ f x = true).
Proof.
  split.
  - intros [x Hx]. exists x. apply find_some in Hx. exact Hx.
  - intros (x & Hin & Hfx). destruct (find f l) as [y|] eqn:Hfind; [eauto|].
    pose proof (find_none f l Hfind x Hin). congruence.
Qed.

Lemma In_names (ty nm : string) (objs : list sqliteMaster) :
  In nm (map name (filter (fun o => String.eqb (typ o) ty) objs)) <->
  exists o, In o objs
            /\ String.eqb (typ o) ty && String.eqb (name o) nm = true.
Proof.
  rewrite in_map_iff. split.
  - intros (o & <- & Hin). apply list_elem_of_In, list_elem_of_filter in Hin.
    destruct Hin as [Hty Hin]. exists o. split; [apply list_elem_of_In, Hin|].
    apply Is_true_true in Hty. rewrite Hty, String.eqb_refl. reflexivity.
  - intros (o & Hin & Ho). apply andb_true_iff in Ho as [Hty Hnm].
    exists o. split; [apply String.eqb_eq, Hnm|].
    apply list_elem_of_In, list_elem_of_filter. split.
    + apply Is_true_true, Hty.
    + apply list_elem_of_In, Hin.
Qed.

(** The listings and the lookups agree.  When [master] succeeds, [Tables]
    lists the names of the objects of type "table" and [Indexes] those of
    type "index"; [Table] hands out a handle for exactly the names
    [Tables] lists and answers [ErrNoSuchTable] for every other name, and
    [Index] does so for the names of [Indexes], with [ErrNoSuchIndex]. *)
Theorem names_agree_with_lookup (p : loc) (nm : string)
    (h : gmap loc (Database P)) (db db' : Database P)
    (objs : list sqliteMaster) :
  h !! p = Some db ->
  master fs newBtree addOverflow parseRecord db = Some ((objs, None), db') ->
  exists tables indexes,
    Database_Tables fs newBtree addOverflow parseRecord db
    = Some ((tables, None), db')
    /\ Database_Indexes fs newBtree addOverflow parseRecord db
       = Some ((indexes, None), db')
    /\ (In nm tables <->
        exists t, Database_Table fs newBtree addOverflow parseRecord p nm h
                  = Some (Ok t, <[p := db']> h))
    /\ (~ In nm tables <->
        Database_Table fs newBtree addOverflow parseRecord p nm h
        = Some (Err ErrNoSuchTable, <[p := db']> h))
    /\ (In nm indexes <->
        exists i, Database_Index fs newBtree addOverflow parseRecord p nm h
                  = Some (Ok i, <[p := db']> h))
    /\ (~ In nm indexes <->
        Database_Index fs newBtree addOverflow parseRecord p nm h
        = Some (Err ErrNoSuchIndex, <[p := db']> h)).
Proof.
  intros Hdb Hmaster.
  unfold Database_Tables, Database_Indexes, objectNames, Database_Table,
    Database_Index.
  rewrite Hdb, Hmaster. eexists _, _.
  split; [reflexivity|]. split; [reflexivity|].
  rewrite !In_names, <- !find_some_iff.
  split; [|split; [|split]].
  - destruct (find _ objs) as [o|]; split.
    + intros _. eexists. reflexivity.
    + intros _. eexists. reflexivity.
    + intros [x [=]].
    + intros [t [=]].
  - destruct (find _ objs) as [o|]; split.
    + intros Hno. destruct Hno. eexists. reflexivity.
    + intros [=].
    + intros _. reflexivity.
    + intros _ [x [=]].
  - destruct (find _ objs) as [o|]; split.
    + intros _. eexists. reflexivity.
    + intros _. eexists. reflexivity.
    + intros [x [=]].
    + intros [t [=]].
  - destruct (find _ objs) as [o|]; split.
    + intros Hno. destruct Hno. eexists. reflexivity.
    + intros [=].
    + intros _. reflexivity.
    + intros _ [x [=]].
Qed.

End Names.

Lemma names_agree_with_lookup_hello :
  let h : gmap loc (Database filePager) := {[1%positive := hello_db]} in
  h !! 1%positive = Some hello_db
  /\ fst <$> Database_Tables fs_hello toy_newBtree toy_addOverflow
                             toy_parseRecord hello_db
     = Some (["hello"%string], None)
  /\ fst <$> Database_Indexes fs_hello toy_newBtree toy_addOverflow
                              toy_parseRecord hello_db
     = Some (["sqlite_autoindex_hello_1"%string], None)
  /\ Database_Table fs_hello toy_newBtree toy_addOverflow toy_parseRecord
                    1%positive "sqlite_autoindex_hello_1" h
     = Some (Err ErrNoSuchTable, <[1%positive := hello_db_read]> h).
Proof.
  intros h.
  assert (h !! 1%positive = Some hello_db) as Hdb by apply lookup_singleton_eq.
  split; [exact Hdb|].
  split; [vm_compute; reflexivity|]. split; [vm_compute; reflexivity|].
  assert (master fs_hello toy_newBtree toy_addOverflow toy_parseRecord hello_db
          = Some (([hello_master;
                    mkMaster "index" "sqlite_autoindex_hello_1" "hello" 3 ""],
                   None), hello_db_read)) as Hmaster
    by (vm_compute; reflexivity).
  destruct (names_agree_with_lookup fs_hello toy_newBtree toy_addOverflow
              toy_parseRecord 1%positive "sqlite_autoindex_hello_1" h
              _ _ _ Hdb Hmaster)
    as (tables & indexes & Htables & _ & _ & Hmissing & _).
  apply Hmissing. unfold Database_Tables, objectNames in Htables.
  rewrite Hmaster in Htables. injection Htables as <-.
  vm_compute. intros [Heq | []]. discriminate.
Defined.

(** ** The header is there when a page is asked for *)

Section NoNilHeader.

Context {P : Type} `{pager P}.
Variable fs : fileSystem.
Variable newBtree : list byte -> bool -> result btreePage.

(** [Database.page] reads [db.header.PageSize] without a nil check.  That
    is safe: [newDatabase] (also when it fails), [RLock], [resolveDirty],
    [openPage], [openTable] and [openIndex] keep the invariant that a
    database with a clear dirty flag has a header, and under it opening a
    page never meets a nil header.  Without a header, a page request from
    1 on would dereference nil. *)
Theorem header_never_nil :
  (forall (l : P) (journal : string),
     header_loaded (fst (newDatabase fs l journal)))
  /\ (forall db : Database P, header_loaded (snd (Database_RLock db)))
  /\ (forall (db db' : Database P) (e : option error),
        header_loaded db -> resolveDirty fs db = (e, db') -> header_loaded db')
  /\ (forall (db : Database P) (page : Z),
        header_loaded db ->
        (exists r db', openPage fs newBtree db page = Some (r, db')
                       /\ header_loaded db')
        /\ (exists r db', openTable fs newBtree db page = Some (r, db')
                          /\ header_loaded db')
        /\ (exists r db', openIndex fs newBtree db page = Some (r, db')
                          /\ header_loaded db'))
  /\ (forall (db : Database P) (id : Z),
        1 <= id -> d_header db = None -> Database_page db id = None).
Proof.
  split; [apply newDatabase_loaded|]. split; [apply Database_RLock_loaded|].
  split; [apply resolveDirty_loaded|]. split.
  - intros db page Hwf. split; [|split].
    + apply openPage_total, Hwf.
    + apply openTable_total, Hwf.
    + apply openIndex_total, Hwf.
  - intros db id Hid Hh. unfold Database_page.
    apply Z.ltb_ge in Hid. rewrite Hid, Hh. reflexivity.
Qed.

End NoNilHeader.

(** The database [OpenFile] returns for a WAL file comes with an error and
    without a header; a page can still be asked of it. *)
Lemma header_never_nil_wal :
  d_header wal_db = None
  /\ header_loaded wal_db
  /\ openPage fs_wal toy_newBtree wal_db 2 = Some (Err ErrWAL, wal_db).
Proof.
  split; [reflexivity|].
  destruct (header_never_nil fs_wal toy_newBtree) as (Hnew & _ & _ & Hopen & _).
  pose proof (Hnew (mkFilePager "wal.sqlite" wal_header)
                   "wal.sqlite-journal"%string) as Hwf.
  split; [exact Hwf|].
  destruct (Hopen wal_db 2 Hwf) as [(r & db' & Hrun & _) _].
  vm_compute. reflexivity.
Defined.

(** ** The pages of a file *)

Lemma skipn_repeat {A} (x : A) (k n : nat) :
  skipn k (repeat x n) = repeat x (n - k).
Proof.
  revert k. induction n as [|n IH]; intros [|k]; cbn; try reflexivity.
  apply IH.
Qed.

(** For a page size that is not negative (a negative one makes Go's
    [make] panic), the buffer of a page request has the requested size,
    and the request ends in one of three ways: no error and the bytes of
    the file at the offset; [io.EOF] and the bytes from the offset to the
    end of the file followed by zero bytes; or the invalid-offset error
    and a buffer of zero bytes.  The offset is the int64 product of
    [id - 1] and the page size. *)
Theorem filePager_page_shape (fp : filePager) (id ps : Z) :
  0 <= ps ->
  let off := wrap64 (wrap64 (id - 1) * ps) in
  let data := mm fp in
  let buf := fst (filePager_page fp id ps) in
  let err := snd (filePager_page fp id ps) in
  length buf = Z.to_nat ps
  /\ ((err = None
       /\ 0 <= off /\ off + ps <= Z.of_nat (length data)
       /\ buf = firstn (Z.to_nat ps) (skipn (Z.to_nat off) data))
      \/ (err = Some io_EOF
          /\ 0 <= off <= Z.of_nat (length data)
          /\ Z.of_nat (length data) < off + ps
          /\ buf = skipn (Z.to_nat off) data
                   ++ repeat x00 (Z.to_nat ps - (length data - Z.to_nat off)))
      \/ (err = Some (mmap_invalid_offset off)
          /\ (off < 0 \/ Z.of_nat (length data) < off)
          /\ buf = repeat x00 (Z.to_nat ps))).
Proof.
  intros Hps off data buf err. subst buf err. unfold filePager_page.
  fold off. fold data.
  destruct (Z_lt_ge_dec off 0) as [Hneg|Hpos];
    [|destruct (Z_lt_ge_dec (Z.of_nat (length data)) off) as [Hbig|Hin]].
  - rewrite mmap_ReadAt_outside by lia. cbn [fst snd].
    split; [apply make_length|]. right. right. auto.
  - rewrite mmap_ReadAt_outside by lia. cbn [fst snd].
    split; [apply make_length|]. right. right. auto.
  - destruct (Z_le_gt_dec (off + Z.of_nat (Z.to_nat ps)) (Z.of_nat (length data)))
      as [Hfits|Hshort].
    + rewrite mmap_ReadAt_inside by (rewrite ?make_length; lia).
      cbn [fst snd]. rewrite make_length. split.
      * rewrite length_firstn, length_skipn. lia.
      * left. repeat split; try lia.
    + rewrite mmap_ReadAt_short by (rewrite ?make_length; lia).
      cbn [fst snd]. unfold make. rewrite skipn_repeat. split.
      * rewrite length_app, length_skipn, repeat_length. lia.
      * right. left. repeat split; lia.
Qed.

Lemma filePager_page_shape_past_the_end :
  0 <= 512
  /\ Z.of_nat (length (mm (d_l one_page_db))) = 512
  /\ filePager_page (d_l one_page_db) 2 512 = (repeat x00 512, Some io_EOF).
Proof.
  assert (0 <= 512) as Hps by lia.
  assert (Z.of_nat (length (mm (d_l one_page_db))) = 512) as Hlen
    by reflexivity.
  split; [exact Hps|]. split; [exact Hlen|].
  assert (wrap64 (wrap64 (2 - 1) * 512) = 512) as Hoff by reflexivity.
  pose proof (filePager_page_shape (d_l one_page_db) 2 512 Hps) as Hshape.
  cbv zeta in Hshape. rewrite Hoff, Hlen in Hshape.
  destruct Hshape
    as [_ [(_ & _ & Hfit & _) | [(He & _ & _ & Hb) | (_ & Hout & _)]]].
  - lia.
  - rewrite (surjective_pairing (filePager_page (d_l one_page_db) 2 512)).
    rewrite Hb, He. reflexivity.
  - lia.
Defined.

Lemma filePager_page_inside (fp : filePager) (i ps : nat) :
  (0 < ps)%nat ->
  ((i + 1) * ps <= length (mm fp))%nat ->
  Z.of_nat (length (mm fp)) < 2 ^ 63 ->
  filePager_page fp (Z.of_nat i + 1) (Z.of_nat ps)
  = (firstn ps (skipn (i * ps) (mm fp)), None).
Proof.
  intros Hps Hend Hlen. unfold filePager_page.
  rewrite (filePager_page_offset fp) by nia.
  rewrite mmap_ReadAt_inside by (rewrite ?make_length; nia).
  rewrite make_length, Nat2Z.id.
  replace (Z.to_nat ((Z.of_nat i + 1 - 1) * Z.of_nat ps)) with (i * ps)%nat by nia.
  reflexivity.
Qed.

Lemma chunks_concat {A} (l : list A) (n ps : nat) :
  concat (map (fun i => firstn ps (skipn (i * ps) l)) (seq 0 n))
  = firstn (n * ps) l.
Proof.
  induction n as [|n IH]; [reflexivity|].
  rewrite seq_S, map_app, concat_app, IH. cbn [map concat Nat.add].
  rewrite app_nil_r, take_take_drop. f_equal. lia.
Qed.

(** The pages of a file do not overlap and leave nothing out: for a file
    of exactly [n] pages, every page from 1 to [n] is read without error
    and has the page size, the pages in order make up the file, and the
    page after the last one ends in [io.EOF]. *)
Theorem pages_tile_file (fp : filePager) (n ps : nat) :
  (0 < ps)%nat ->
  length (mm fp) = (n * ps)%nat ->
  Z.of_nat (length (mm fp)) < 2 ^ 63 - Z.of_nat ps ->
  Forall (fun pg => snd pg = None /\ length (fst pg) = ps)
         (all_pages fp n (Z.of_nat ps))
  /\ concat (map fst (all_pages fp n (Z.of_nat ps))) = mm fp
  /\ snd (filePager_page fp (Z.of_nat n + 1) (Z.of_nat ps)) = Some io_EOF.
Proof.
  intros Hps Hlen Hmax.
  assert (forall i, (i < n)%nat ->
            filePager_page fp (Z.of_nat i + 1) (Z.of_nat ps)
            = (firstn ps (skipn (i * ps) (mm fp)), None)) as Hpage.
  { intros i Hi. apply filePager_page_inside; [exact Hps | nia | lia]. }
  assert (all_pages fp n (Z.of_nat ps)
          = map (fun i => (firstn ps (skipn (i * ps) (mm fp)), None)) (seq 0 n))
    as Hall.
  { unfold all_pages. apply map_ext_in. intros i Hi. apply in_seq in Hi.
    apply Hpage. lia. }
  rewrite Hall. split; [|split].
  - apply Forall_forall. intros pg Hpg.
    apply list_elem_of_In, in_map_iff in Hpg as (i & <- & Hi).
    apply in_seq in Hi. cbn [fst snd]. split; [reflexivity|].
    rewrite length_firstn, length_skipn. nia.
  - rewrite map_map. cbn [fst].
    rewrite (chunks_concat (mm fp) n ps), <- Hlen. apply firstn_all.
  - unfold filePager_page.
    rewrite (filePager_page_offset fp) by nia.
    rewrite mmap_ReadAt_short by (rewrite ?make_length; nia).
    reflexivity.
Qed.

Lemma pages_tile_file_hello :
  let fp := mkFilePager "hello.sqlite" hello_file in
  length (mm fp) = (3 * 512)%nat
  /\ concat (map fst (all_pages fp 3 512)) = hello_file
  /\ snd (filePager_page fp 4 512) = Some io_EOF.
Proof.
  intros fp. split; [reflexivity|].
  destruct (pages_tile_file fp 3 512) as (_ & Htile & Hnext);
    [lia | reflexivity | vm_compute; reflexivity |].
  split; [exact Htile | exact Hnext].
Defined.

Lemma openTable_openIndex_exclusive_hello :
  (exists t db', openTable fs_hello toy_newBtree hello_db 2 = Some (Ok t, db'))
  /\ fst <$> openIndex fs_hello toy_newBtree hello_db 2
     = Some (Err (errors_New "found a table, expected an index")).
Proof.
  destruct (openTable fs_hello toy_newBtree hello_db 2) as [[[t|e] db']|] eqn:Hopen;
    try (vm_compute in Hopen; discriminate).
  split; [eauto|].
  destruct (openTable_openIndex_exclusive fs_hello toy_newBtree hello_db 2)
    as [Htable _].
  rewrite (Htable t db' Hopen). reflexivity.
Defined.
